(** * Authentication, rate limiting and inventory of the e-commerce services

    A shallow embedding of
    - [auth-service/src/controllers/auth.controller.ts]
      (register, login, logout, refreshToken, verifyEmail),
    - the auth middleware (authenticate, rateLimiter),
    - [ProductService.updateInventory],
    over explicit models of the collaborators they call: the JWT codec,
    the Redis client, the Mongoose collections, the logger, the mailer and
    the message bus.

    Conventions.  Time is the wall clock in milliseconds ([Date.now()]); a
    request handler runs at one instant, which it receives as [now].
    Request bodies are the ones the routing layer lets through: the fields
    a handler destructures are strings.  A string is held as the bytes of
    its UTF-8 encoding, taken to be well formed. *)

From Stdlib Require Import QArith Ascii.
From stdpp Require Import gmap strings list fin_maps.

Local Open Scope Z_scope.
Local Open Scope string_scope.

(** ** Identifiers and time spans *)

(** A Mongo [ObjectId]: a 96-bit value chosen by the driver. *)
Definition ObjectId := N.

(** The [expiresIn] notations of the handlers: ['24h'], ['7d'], ['30d']. *)
Inductive TimeSpan :=
  | Hours (n : Z)
  | Days (n : Z).

Definition span_seconds (s : TimeSpan) : Z :=
  match s with
  | Hours n => n * 3600
  | Days n => n * 86400
  end.

#[global] Instance TimeSpan_eq_dec : EqDecision TimeSpan.
Proof. solve_decision. Defined.

(** ** Token codec ([jsonwebtoken])

    A token string is either a well-formed JWT, determined by its payload,
    its [iat] and [exp] claims (seconds) and the key its signature was
    made with, or some other text.  HS256 is deterministic: signing the
    same payload under the same key in the same clock second gives the
    same string. *)
Module Jwt.

Record Claims := {
  userId : ObjectId;
  email : option string;
  role : option string
}.

Inductive Token :=
  | Signed (payload : Claims) (iat exp : Z) (key : string)
  | Text (s : string).

Inductive Error :=
  | TokenExpiredError
  | JsonWebTokenError.

(** [Math.floor(Date.now() / 1000)] *)
Definition timestamp (now : Z) : Z := now / 1000.

(** [jwt.sign(payload, secret, { expiresIn })] *)
Definition sign (payload : Claims) (secret : string) (expiresIn : TimeSpan)
    (now : Z) : Token :=
  Signed payload (timestamp now) (timestamp now + span_seconds expiresIn) secret.

(** [jwt.verify(token, secret)]: the signature is checked first, then
    the expiry ([clockTimestamp >= payload.exp] is expired). *)
Definition verify (token : Token) (secret : string) (now : Z)
    : Error + Claims :=
  match token with
  | Text _ => inl JsonWebTokenError
  | Signed payload _ exp key =>
      if negb (bool_decide (key = secret)) then inl JsonWebTokenError
      else if bool_decide (exp <= timestamp now) then inl TokenExpiredError
      else inr payload
  end.

(** JavaScript truthiness of an optional string: [undefined] and ['']
    are falsy. *)
Definition truthy (t : option Token) : bool :=
  match t with
  | None => false
  | Some (Text "") => false
  | Some _ => true
  end.

End Jwt.

#[global] Instance Claims_eq_dec : EqDecision Jwt.Claims.
Proof. solve_decision. Defined.
#[global] Instance Token_eq_dec : EqDecision Jwt.Token.
Proof. solve_decision. Defined.

#[global] Program Instance Claims_countable : Countable Jwt.Claims :=
  inj_countable'
    (fun c => (Jwt.userId c, Jwt.email c, Jwt.role c))
    (fun '(u, e, r) => Jwt.Build_Claims u e r) _.
Next Obligation. by intros []. Qed.

#[global] Program Instance Token_countable : Countable Jwt.Token :=
  inj_countable'
    (fun t => match t with
              | Jwt.Signed p i e k => inl (p, i, e, k)
              | Jwt.Text s => inr s
              end)
    (fun x => match x with
              | inl (p, i, e, k) => Jwt.Signed p i e k
              | inr s => Jwt.Text s
              end) _.
Next Obligation. by intros []. Qed.

(** ** The shared key-value store

    Key layout: [blacklist:<token>], [refresh:<subjectId>],
    [verify:<subjectId>], [ratelimit:<ip>:<path>], [product:<id>].  The
    prefixes are pairwise different, so a key is its namespace together
    with the text after the prefix. *)
Inductive Key :=
  | KBlacklist (token : Jwt.Token)
  | KRefresh (userId : ObjectId)
  | KVerify (userId : ObjectId)
  | KRateLimit (client_route : string)
  | KProduct (productId : ObjectId).

#[global] Instance Key_eq_dec : EqDecision Key.
Proof. solve_decision. Defined.

#[global] Program Instance Key_countable : Countable Key :=
  inj_countable'
    (fun k => match k with
              | KBlacklist t => inl t
              | KRefresh u => inr (inl u)
              | KVerify u => inr (inr (inl u))
              | KRateLimit s => inr (inr (inr (inl s)))
              | KProduct p => inr (inr (inr (inr p)))
              end)
    (fun x => match x with
              | inl t => KBlacklist t
              | inr (inl u) => KRefresh u
              | inr (inr (inl u)) => KVerify u
              | inr (inr (inr (inl s))) => KRateLimit s
              | inr (inr (inr (inr p))) => KProduct p
              end) _.
Next Obligation. by intros []. Qed.

(** A stored value is a token string or a counter written by [INCR]. *)
Inductive Value :=
  | VString (t : Jwt.Token)
  | VCounter (n : Z).

#[global] Instance Value_eq_dec : EqDecision Value.
Proof. solve_decision. Defined.

(** A cell with its expiry instant (milliseconds), if it has one. *)
Record Entry := {
  value : Value;
  expires_at : option Z
}.

#[global] Instance Entry_eq_dec : EqDecision Entry.
Proof. solve_decision. Defined.

(** A cell is gone once the clock has passed its expiry instant (the
    server drops a key when [now > when]). *)
Definition live (now : Z) (e : Entry) : bool :=
  match expires_at e with
  | None => true
  | Some t => bool_decide (now <= t)
  end.

(** ** Strings ([String.prototype])

    The methods that the user schema calls on the values of its paths,
    over the UTF-8 bytes of a string. *)
Module JsString.

Definition code (c : ascii) : N := Ascii.N_of_ascii c.

(** The UTF-16 code units that a byte of the encoding accounts for: a
    continuation byte (10xxxxxx) none, the lead byte of a four-byte
    sequence (a character beyond the basic plane) two, any other one. *)
Definition units (c : ascii) : nat :=
  if (code c <? 128)%N then 1
  else if (code c <? 192)%N then 0
  else if (code c <? 240)%N then 1
  else 2.

(** [s.length] *)
Fixpoint length (s : string) : nat :=
  match s with
  | EmptyString => 0
  | String c rest => units c + length rest
  end.

(** The white space and line terminators that [trim] removes, by the
    length of their encoding.  One byte: U+0009 to U+000D and U+0020. *)
Definition space1 (c : ascii) : bool :=
  (9 <=? code c)%N && (code c <=? 13)%N || (code c =? 32)%N.

(** Two bytes: U+00A0. *)
Definition space2 (c d : ascii) : bool :=
  (code c =? 194)%N && (code d =? 160)%N.

(** Three bytes: U+1680, U+2000 to U+200A, U+2028, U+2029, U+202F,
    U+205F, U+3000 and U+FEFF. *)
Definition space3 (c d e : ascii) : bool :=
  (code c =? 225)%N && (code d =? 154)%N && (code e =? 128)%N
  || (code c =? 226)%N && (code d =? 128)%N
     && ((128 <=? code e)%N && (code e <=? 138)%N
         || (code e =? 168)%N || (code e =? 169)%N || (code e =? 175)%N)
  || (code c =? 226)%N && (code d =? 129)%N && (code e =? 159)%N
  || (code c =? 227)%N && (code d =? 128)%N && (code e =? 128)%N
  || (code c =? 239)%N && (code d =? 187)%N && (code e =? 191)%N.

(** [s.trimStart()] *)
Fixpoint trimStart (s : string) : string :=
  match s with
  | EmptyString => EmptyString
  | String c rest =>
      if space1 c then trimStart rest
      else
        match rest with
        | EmptyString => s
        | String d rest2 =>
            if space2 c d then trimStart rest2
            else
              match rest2 with
              | EmptyString => s
              | String e rest3 =>
                  if space3 c d e then trimStart rest3 else s
              end
        end
  end.

(** Nothing but white space. *)
Definition blank (s : string) : bool :=
  match trimStart s with
  | EmptyString => true
  | String _ _ => false
  end.

(** [s.trimEnd()]: the string up to its last blank tail. *)
Fixpoint trimEnd (s : string) : string :=
  match s with
  | EmptyString => EmptyString
  | String c rest => if blank s then EmptyString else String c (trimEnd rest)
  end.

(** [s.trim()] *)
Definition trim (s : string) : string := trimEnd (trimStart s).

(** [s.toLowerCase()] on the letters of ASCII; the bytes of any other
    character are kept, so the result is exact when the string has no
    upper-case letter outside ASCII. *)
Definition lower (c : ascii) : ascii :=
  if (65 <=? code c)%N && (code c <=? 90)%N
  then Ascii.ascii_of_N (code c + 32)
  else c.

Fixpoint toLowerCase (s : string) : string :=
  match s with
  | EmptyString => EmptyString
  | String c rest => String (lower c) (toLowerCase rest)
  end.

(** Every character is one of ASCII. *)
Fixpoint is_ascii (s : string) : bool :=
  match s with
  | EmptyString => true
  | String c rest => (code c <? 128)%N && is_ascii rest
  end.

End JsString.

(** ** Documents *)

(** The [password] field of a user document: the text given to
    [new User], or after the pre-save hook
    [bcrypt.hash(password, genSalt(10))], taken symbolically: a digest
    matches exactly the secret it was computed from. *)
Inductive Digest :=
  | Plain (secret : string)
  | Bcrypt (rounds : nat) (secret : string).

(** The [User] model ([models/User.ts]). *)
Record IUser := {
  _id : ObjectId;
  email : string;
  password : Digest;
  firstName : string;
  lastName : string;
  phoneNumber : option string;
  isEmailVerified : bool;
  role : string
}.

(** The fields of the [Product] model that the inventory update reads and
    writes. *)
Module Product.
Record t := {
  _id : ObjectId;
  sku : string;
  quantity : Z;
  status : string
}.
End Product.

(** ** Exceptions, log lines and bus events *)

Inductive Exn :=
  | RedisError (msg : string)
  | JwtError (e : Jwt.Error)
  | ValidationError (msg : string)
  | MongoServerError (msg : string)
  | TypeError (msg : string).

(** [error.name] *)
Definition exn_name (e : Exn) : string :=
  match e with
  | RedisError _ => "Error"
  | JwtError Jwt.TokenExpiredError => "TokenExpiredError"
  | JwtError Jwt.JsonWebTokenError => "JsonWebTokenError"
  | ValidationError _ => "ValidationError"
  | MongoServerError _ => "MongoServerError"
  | TypeError _ => "TypeError"
  end.

(** [error.message] *)
Definition exn_message (e : Exn) : string :=
  match e with
  | RedisError m | ValidationError m | MongoServerError m | TypeError m => m
  | JwtError Jwt.TokenExpiredError => "jwt expired"
  | JwtError Jwt.JsonWebTokenError => "invalid token"
  end.

Inductive LogLine :=
  | LogError (label : string) (e : Exn).

(** [publishMessage('inventory.updated', {...})] *)
Record InventoryEvent := {
  ev_productId : ObjectId;
  ev_sku : string;
  ev_newQuantity : Z;
  ev_status : string
}.

(** ** The world a handler runs in *)

Record World := {
  users : list IUser;
  products : list Product.t;
  next_oid : ObjectId;
  redis : gmap Key Entry;
  redis_ready : bool;
  log : list LogLine;
  outbox : list (string * Jwt.Token);
  published : list InventoryEvent
}.

Definition with_users (us : list IUser) (w : World) : World :=
  {| users := us; products := products w; next_oid := next_oid w;
     redis := redis w; redis_ready := redis_ready w; log := log w;
     outbox := outbox w; published := published w |}.

Definition with_products (ps : list Product.t) (w : World) : World :=
  {| users := users w; products := ps; next_oid := next_oid w;
     redis := redis w; redis_ready := redis_ready w; log := log w;
     outbox := outbox w; published := published w |}.

Definition with_next_oid (n : ObjectId) (w : World) : World :=
  {| users := users w; products := products w; next_oid := n;
     redis := redis w; redis_ready := redis_ready w; log := log w;
     outbox := outbox w; published := published w |}.

Definition with_redis (r : gmap Key Entry) (w : World) : World :=
  {| users := users w; products := products w; next_oid := next_oid w;
     redis := r; redis_ready := redis_ready w; log := log w;
     outbox := outbox w; published := published w |}.

Definition with_log (l : list LogLine) (w : World) : World :=
  {| users := users w; products := products w; next_oid := next_oid w;
     redis := redis w; redis_ready := redis_ready w; log := l;
     outbox := outbox w; published := published w |}.

Definition with_outbox (o : list (string * Jwt.Token)) (w : World) : World :=
  {| users := users w; products := products w; next_oid := next_oid w;
     redis := redis w; redis_ready := redis_ready w; log := log w;
     outbox := o; published := published w |}.

Definition with_published (p : list InventoryEvent) (w : World) : World :=
  {| users := users w; products := products w; next_oid := next_oid w;
     redis := redis w; redis_ready := redis_ready w; log := log w;
     outbox := outbox w; published := p |}.

(** ** A state monad with exceptions

    A handler is a function of the world giving a value or a thrown
    exception together with the world it leaves behind: what was written
    before a [throw] stays written. *)
Inductive Result (A : Type) :=
  | Ok (a : A)
  | Throw (e : Exn).
Arguments Ok {A} a.
Arguments Throw {A} e.

Definition M (A : Type) : Type := World -> Result A * World.

Definition ret {A} (a : A) : M A := fun w => (Ok a, w).

Definition throw {A} (e : Exn) : M A := fun w => (Throw e, w).

Definition bind {A B} (m : M A) (k : A -> M B) : M B :=
  fun w =>
    match m w with
    | (Ok a, w') => k a w'
    | (Throw e, w') => (Throw e, w')
    end.

(** [try { body } catch (error) { handler }] *)
Definition try_catch {A} (body : M A) (handler : Exn -> M A) : M A :=
  fun w =>
    match body w with
    | (Ok a, w') => (Ok a, w')
    | (Throw e, w') => handler e w'
    end.

Declare Scope js_scope.
Delimit Scope js_scope with js.
Notation "x <- m ;; k" := (bind m (fun x => k))
  (at level 100, m at next level, right associativity) : js_scope.
Notation "m ;; k" := (bind m (fun _ => k))
  (at level 100, right associativity) : js_scope.
Local Open Scope js_scope.

(** Modelled from the spec: [utils/logger] is not among the sources;
    [logger.error(label, error)] records the fault and never fails. *)
Definition logger_error (label : string) (e : Exn) : M unit :=
  fun w => (Ok tt, with_log (log w ++ [LogError label e]) w).

(** ** The Redis client *)

(** Modelled from the spec: [config/redis] is not among the sources; the
    client is the key-value capability (get, set with a time to live,
    increment, delete, expire) of a Redis server, and every command
    raises while the client is closed. *)
Module Redis.

Definition closed : Exn := RedisError "The client is closed".

(** The value of a key at [now], expired cells being absent. *)
Definition peek (now : Z) (k : Key) (store : gmap Key Entry) : option Entry :=
  match store !! k with
  | Some e => if live now e then Some e else None
  | None => None
  end.

Definition command {A} (f : gmap Key Entry -> Result A * gmap Key Entry)
    : M A :=
  fun w =>
    if redis_ready w then
      let '(r, store) := f (redis w) in (r, with_redis store w)
    else (Throw closed, w).

(** [GET key] *)
Definition get (now : Z) (k : Key) : M (option Value) :=
  command (fun store => (Ok (value <$> peek now k store), store)).

(** [SETEX key seconds value] *)
Definition setEx (now : Z) (k : Key) (seconds : Z) (v : Value) : M unit :=
  command (fun store =>
    if bool_decide (seconds <= 0)
    then (Throw (RedisError "ERR invalid expire time in 'setex' command"), store)
    else (Ok tt,
          <[k := {| value := v; expires_at := Some (now + seconds * 1000) |}]> store)).

(** [DEL key]: the number of keys removed. *)
Definition del (now : Z) (k : Key) : M Z :=
  command (fun store =>
    (Ok (match peek now k store with Some _ => 1 | None => 0 end),
     delete k store)).

(** [INCR key]: a missing key counts from 0 and gets no expiry; the
    expiry of an existing counter is kept.  The counter is an unbounded
    integer here (the server's is 64-bit). *)
Definition incr (now : Z) (k : Key) : M Z :=
  command (fun store =>
    match peek now k store with
    | None =>
        (Ok 1, <[k := {| value := VCounter 1; expires_at := None |}]> store)
    | Some {| value := VCounter n; expires_at := t |} =>
        (Ok (n + 1),
         <[k := {| value := VCounter (n + 1); expires_at := t |}]> store)
    | Some {| value := VString _ |} =>
        (Throw (RedisError "ERR value is not an integer or out of range"), store)
    end).

(** [EXPIRE key seconds]: whether a timeout was set.  The client sends
    the JavaScript number as it is; the server refuses one that is not an
    integer, and a timeout that is not positive deletes the key. *)
Definition expire (now : Z) (k : Key) (seconds : Q) : M bool :=
  command (fun store =>
    if negb (bool_decide (Qden (Qred seconds) = 1%positive))
    then (Throw (RedisError "ERR value is not an integer or out of range"), store)
    else
      let secs := Qnum (Qred seconds) in
      match peek now k store with
      | None => (Ok false, store)
      | Some e =>
          (Ok true,
           if bool_decide (secs <= 0) then delete k store
           else <[k := {| value := value e;
                          expires_at := Some (now + secs * 1000) |}]> store)
      end).

End Redis.

(** ** The user collection ([mongoose.model('User', UserSchema)]) *)
Module User.

(** First document matching a predicate, in insertion order. *)
Definition lookup (p : IUser -> bool) (us : list IUser) : option IUser :=
  List.find p us.

(** The setters of the [email] path, [lowercase: true, trim: true]: the
    mapper runs the setters of a path last declared first, on a value
    assigned to the path and on a value a query filter compares it with. *)
Definition email_setters (v : string) : string :=
  JsString.toLowerCase (JsString.trim v).

(** [User.findOne({ email })]: the filter is cast by the schema. *)
Definition findOne (e : string) : M (option IUser) :=
  fun w =>
    (Ok (lookup (fun u => bool_decide (email u = email_setters e)) (users w)),
     w).

(** [User.findById(id)] *)
Definition findById (id : ObjectId) : M (option IUser) :=
  fun w => (Ok (lookup (fun u => bool_decide (_id u = id)) (users w)), w).

(** [new User({ email, password, firstName, lastName, phoneNumber })]: the
    driver picks the [_id]; each value goes through the setters of its
    path ([trim: true] on the names and the phone number, none on the
    password); the schema defaults fill the rest. *)
Definition new (e p f l : string) (ph : option string) : M IUser :=
  fun w =>
    (Ok {| _id := next_oid w; email := email_setters e; password := Plain p;
           firstName := JsString.trim f; lastName := JsString.trim l;
           phoneNumber := JsString.trim <$> ph;
           isEmailVerified := false; role := "customer" |},
     with_next_oid (N.succ (next_oid w)) w).

(** The schema validators, run on the document as the setters left it:
    required paths (a string is present when it is not empty),
    [minlength: 8] on the password, measured by [.length] (a digest is 60
    characters long), the role enumeration. *)
Definition validate (u : IUser) : bool :=
  negb (bool_decide (email u = ""))
  && match password u with
     | Plain p => bool_decide (8 <= JsString.length p)%nat
     | Bcrypt _ _ => true
     end
  && negb (bool_decide (firstName u = ""))
  && negb (bool_decide (lastName u = ""))
  && bool_decide (role u ∈ ["customer"; "seller"; "admin"]).

(** The pre-save hook: a modified password is replaced by its digest. *)
Definition hash_password (u : IUser) : IUser :=
  match password u with
  | Plain p =>
      {| _id := _id u; email := email u; password := Bcrypt 10 p;
         firstName := firstName u; lastName := lastName u;
         phoneNumber := phoneNumber u; isEmailVerified := isEmailVerified u;
         role := role u |}
  | Bcrypt _ _ => u
  end.

(** [user.save()] of a new document: validation, the pre-save hook, then
    the insert, which the unique index on [email] can refuse.  The result
    is the document as it now reads. *)
Definition save (u : IUser) : M IUser :=
  fun w =>
    if negb (validate u)
    then (Throw (ValidationError "User validation failed"), w)
    else
      match lookup (fun v => bool_decide (email v = email u)) (users w) with
      | Some _ => (Throw (MongoServerError "E11000 duplicate key error"), w)
      | None => (Ok (hash_password u), with_users (users w ++ [hash_password u]) w)
      end.

Definition set_verified (u : IUser) : IUser :=
  {| _id := _id u; email := email u; password := password u;
     firstName := firstName u; lastName := lastName u;
     phoneNumber := phoneNumber u; isEmailVerified := true; role := role u |}.

Fixpoint update_first (id : ObjectId) (f : IUser -> IUser) (us : list IUser)
    : list IUser :=
  match us with
  | [] => []
  | u :: rest =>
      if bool_decide (_id u = id) then f u :: rest
      else u :: update_first id f rest
  end.

(** [User.findByIdAndUpdate(id, { isEmailVerified: true })]: the document
    as it was before the update, if there is one. *)
Definition findByIdAndUpdate (id : ObjectId) (f : IUser -> IUser)
    : M (option IUser) :=
  fun w =>
    (Ok (lookup (fun u => bool_decide (_id u = id)) (users w)),
     with_users (update_first id f (users w)) w).

(** [user.comparePassword(candidate)], that is
    [bcrypt.compare(candidate, this.password)]. *)
Definition comparePassword (u : IUser) (candidate : string) : M bool :=
  ret (match password u with
       | Bcrypt _ p => bool_decide (candidate = p)
       | Plain _ => false
       end).

End User.

(** Modelled from the spec: [services/email.service] is not among the
    sources; delivery is an external collaborator, and the message is
    recorded as handed over. *)
Definition sendVerificationEmail (to : string) (token : Jwt.Token) : M unit :=
  fun w => (Ok tt, with_outbox (outbox w ++ [(to, token)]) w).

(** ** HTTP replies *)
Module Http.

Record UserView := {
  id : ObjectId;
  email : string;
  firstName : string;
  lastName : string;
  role : string
}.

Record Tokens := {
  accessToken : Jwt.Token;
  refreshToken : Jwt.Token;
  expiresIn : TimeSpan
}.

Inductive Data :=
  | NoData
  | Session (user : UserView) (tokens : Tokens)
  | Access (accessToken : Jwt.Token) (expiresIn : TimeSpan).

(** [res.status(code).json({ success, message, data, error })] *)
Record Response := {
  status : Z;
  success : bool;
  message : option string;
  data : Data;
  error : option string
}.

Definition fail (code : Z) (msg : string) : Response :=
  {| status := code; success := false; message := Some msg;
     data := NoData; error := None |}.

End Http.

(** The part of a user document that a reply shows. *)
Definition user_view (u : IUser) : Http.UserView :=
  {| Http.id := _id u; Http.email := email u; Http.firstName := firstName u;
     Http.lastName := lastName u; Http.role := role u |}.

(** What a middleware does with a request: answer it, or hand it on. *)
Inductive Outcome (A : Type) :=
  | Reply (r : Http.Response)
  | Next (req : A).
Arguments Reply {A} r.
Arguments Next {A} req.

(** ** The auth service *)

Record RegisterBody := {
  reg_email : string;
  reg_password : string;
  reg_firstName : string;
  reg_lastName : string;
  reg_phoneNumber : option string
}.

Record LoginBody := {
  login_email : string;
  login_password : string
}.

(** The [Authorization] header: ["Bearer " + token], or any other text. *)
Inductive Authorization :=
  | Bearer (token : Jwt.Token)
  | Other (text : string).

(** A request as the rate limiter sees it. *)
Record Request := {
  ip : string;
  path : string
}.

(** Truthiness of a value read from the store: only the empty string is
    falsy. *)
Definition value_truthy (v : option Value) : bool :=
  match v with
  | None => false
  | Some (VString (Jwt.Text "")) => false
  | Some _ => true
  end.

Section Service.

(** [process.env.JWT_SECRET] *)
Variable env_JWT_SECRET : option string.

Definition JWT_SECRET : string :=
  match env_JWT_SECRET with
  | None | Some "" => "your-secret-key"
  | Some s => s
  end.

Definition JWT_EXPIRES_IN : TimeSpan := Days 7.
Definition REFRESH_TOKEN_EXPIRES_IN : TimeSpan := Days 30.

(** [jwt.verify(token, JWT_SECRET)] inside a [try] block. *)
Definition jwt_verify (now : Z) (token : Jwt.Token) : M Jwt.Claims :=
  match Jwt.verify token JWT_SECRET now with
  | inl e => throw (JwtError e)
  | inr claims => ret claims
  end.

Definition access_claims (u : IUser) : Jwt.Claims :=
  {| Jwt.userId := _id u; Jwt.email := Some (email u);
     Jwt.role := Some (role u) |}.

Definition refresh_claims (u : IUser) : Jwt.Claims :=
  {| Jwt.userId := _id u; Jwt.email := None; Jwt.role := None |}.

Definition verification_claims (u : IUser) : Jwt.Claims :=
  {| Jwt.userId := _id u; Jwt.email := Some (email u); Jwt.role := None |}.

Definition register (now : Z) (body : RegisterBody) : M Http.Response :=
  try_catch
    (existingUser <- User.findOne (reg_email body) ;;
     match existingUser with
     | Some _ => ret (Http.fail 400 "User already exists")
     | None =>
         user <- User.new (reg_email body) (reg_password body)
                   (reg_firstName body) (reg_lastName body)
                   (reg_phoneNumber body) ;;
         user <- User.save user ;;
         let verificationToken :=
           Jwt.sign (verification_claims user) JWT_SECRET (Hours 24) now in
         Redis.setEx now (KVerify (_id user)) 86400 (VString verificationToken) ;;
         sendVerificationEmail (email user) verificationToken ;;
         let accessToken :=
           Jwt.sign (access_claims user) JWT_SECRET JWT_EXPIRES_IN now in
         let refreshToken :=
           Jwt.sign (refresh_claims user) JWT_SECRET REFRESH_TOKEN_EXPIRES_IN now in
         Redis.setEx now (KRefresh (_id user)) (30 * 86400) (VString refreshToken) ;;
         ret {| Http.status := 201; Http.success := true;
                Http.message :=
                  Some "User registered successfully. Please verify your email.";
                Http.data :=
                  Http.Session (user_view user)
                    {| Http.accessToken := accessToken;
                       Http.refreshToken := refreshToken;
                       Http.expiresIn := JWT_EXPIRES_IN |};
                Http.error := None |}
     end)
    (fun error =>
       logger_error "Registration error:" error ;;
       ret {| Http.status := 500; Http.success := false;
              Http.message := Some "Internal server error";
              Http.data := Http.NoData;
              Http.error := Some (exn_message error) |}).

Definition login (now : Z) (body : LoginBody) : M Http.Response :=
  try_catch
    (user <- User.findOne (login_email body) ;;
     match user with
     | None => ret (Http.fail 401 "Invalid credentials")
     | Some user =>
         isPasswordValid <- User.comparePassword user (login_password body) ;;
         if negb isPasswordValid then
           ret (Http.fail 401 "Invalid credentials")
         else if negb (isEmailVerified user) then
           ret (Http.fail 403 "Please verify your email first")
         else
           let accessToken :=
             Jwt.sign (access_claims user) JWT_SECRET JWT_EXPIRES_IN now in
           let refreshToken :=
             Jwt.sign (refresh_claims user) JWT_SECRET REFRESH_TOKEN_EXPIRES_IN now in
           Redis.setEx now (KRefresh (_id user)) (30 * 86400) (VString refreshToken) ;;
           ret {| Http.status := 200; Http.success := true;
                  Http.message := None;
                  Http.data :=
                    Http.Session (user_view user)
                      {| Http.accessToken := accessToken;
                         Http.refreshToken := refreshToken;
                         Http.expiresIn := JWT_EXPIRES_IN |};
                  Http.error := None |}
     end)
    (fun error =>
       logger_error "Login error:" error ;;
       ret (Http.fail 500 "Internal server error")).

(** [req.user] is what [authenticate] left on the request, if it ran. *)
Definition logout (now : Z) (user : option Jwt.Claims) : M Http.Response :=
  try_catch
    (match user with
     | None =>
         throw (TypeError "Cannot destructure property 'userId' of undefined")
     | Some claims =>
         Redis.del now (KRefresh (Jwt.userId claims)) ;;
         ret {| Http.status := 200; Http.success := true;
                Http.message := Some "Logged out successfully";
                Http.data := Http.NoData; Http.error := None |}
     end)
    (fun error =>
       logger_error "Logout error:" error ;;
       ret (Http.fail 500 "Internal server error")).

Definition refreshToken (now : Z) (body : option Jwt.Token) : M Http.Response :=
  try_catch
    (if negb (Jwt.truthy body) then
       ret (Http.fail 400 "Refresh token is required")
     else
       let refreshToken := default (Jwt.Text "") body in
       decoded <- jwt_verify now refreshToken ;;
       storedToken <- Redis.get now (KRefresh (Jwt.userId decoded)) ;;
       if negb (bool_decide (storedToken = Some (VString refreshToken))) then
         ret (Http.fail 401 "Invalid refresh token")
       else
         user <- User.findById (Jwt.userId decoded) ;;
         match user with
         | None => ret (Http.fail 404 "User not found")
         | Some user =>
             let newAccessToken :=
               Jwt.sign (access_claims user) JWT_SECRET JWT_EXPIRES_IN now in
             ret {| Http.status := 200; Http.success := true;
                    Http.message := None;
                    Http.data := Http.Access newAccessToken JWT_EXPIRES_IN;
                    Http.error := None |}
         end)
    (fun error =>
       logger_error "Refresh token error:" error ;;
       ret (Http.fail 401 "Invalid refresh token")).

Definition verifyEmail (now : Z) (query : option Jwt.Token) : M Http.Response :=
  try_catch
    (if negb (Jwt.truthy query) then
       ret (Http.fail 400 "Verification token is required")
     else
       let token := default (Jwt.Text "") query in
       decoded <- jwt_verify now token ;;
       storedToken <- Redis.get now (KVerify (Jwt.userId decoded)) ;;
       if negb (bool_decide (storedToken = Some (VString token))) then
         ret (Http.fail 400 "Invalid or expired verification token")
       else
         User.findByIdAndUpdate (Jwt.userId decoded) User.set_verified ;;
         Redis.del now (KVerify (Jwt.userId decoded)) ;;
         ret {| Http.status := 200; Http.success := true;
                Http.message := Some "Email verified successfully";
                Http.data := Http.NoData; Http.error := None |})
    (fun error =>
       logger_error "Email verification error:" error ;;
       ret (Http.fail 400 "Invalid or expired verification token")).

(** ** The auth middleware *)

Definition authenticate (now : Z) (authorization : option Authorization)
    : M (Outcome Jwt.Claims) :=
  try_catch
    (match authorization with
     | None | Some (Other _) =>
         ret (Reply (Http.fail 401 "No token provided"))
     | Some (Bearer token) =>
         decoded <- jwt_verify now token ;;
         isBlacklisted <- Redis.get now (KBlacklist token) ;;
         if value_truthy isBlacklisted then
           ret (Reply (Http.fail 401 "Token has been invalidated"))
         else
           ret (Next decoded)
     end)
    (fun error =>
       logger_error "Authentication error:" error ;;
       if bool_decide (exn_name error = "TokenExpiredError") then
         ret (Reply (Http.fail 401 "Token has expired"))
       else
         ret (Reply (Http.fail 401 "Invalid token"))).

(** A route mounted behind [authenticate]: the handler runs only when the
    middleware calls [next()], on the request it has decorated. *)
Definition protected (handler : option Jwt.Claims -> M Http.Response)
    (now : Z) (authorization : option Authorization) : M Http.Response :=
  outcome <- authenticate now authorization ;;
  match outcome with
  | Reply r => ret r
  | Next claims => handler (Some claims)
  end.

End Service.

(** [`ratelimit:${req.ip}:${req.path}`] *)
Definition ratelimit_key (req : Request) : Key :=
  KRateLimit (ip req ++ ":" ++ path req).

Definition rateLimiter (limit windowMs : Z) (now : Z) (req : Request)
    : M (Outcome unit) :=
  let key := ratelimit_key req in
  try_catch
    (requests <- Redis.incr now key ;;
     (if bool_decide (requests = 1)
      then Redis.expire now key (Qmake windowMs 1000) ;; ret tt
      else ret tt) ;;
     if bool_decide (limit < requests) then
       ret (Reply (Http.fail 429 "Too many requests, please try again later"))
     else
       ret (Next tt))
    (fun error =>
       logger_error "Rate limiter error:" error ;;
       ret (Next tt)).

(** ** The product service: inventory *)

Inductive Operation :=
  | add
  | subtract.

(** Modelled from the spec: [utils/rabbitmq] is not among the sources;
    the bus is an external collaborator, and the event is recorded as
    published. *)
Definition publishMessage (ev : InventoryEvent) : M unit :=
  fun w => (Ok tt, with_published (published w ++ [ev]) w).

Section Inventory.

(** The validators of the [Product] schema, which is not among the
    sources: [product.save()] throws when they refuse the document. *)
Variable product_valid : Product.t -> bool.

Definition inc_quantity (delta : Z) (p : Product.t) : Product.t :=
  {| Product._id := Product._id p; Product.sku := Product.sku p;
     Product.quantity := Product.quantity p + delta;
     Product.status := Product.status p |}.

Definition set_status (s : string) (p : Product.t) : Product.t :=
  {| Product._id := Product._id p; Product.sku := Product.sku p;
     Product.quantity := Product.quantity p;
     Product.status := s |}.

Fixpoint replace_first (id : ObjectId) (f : Product.t -> Product.t)
    (ps : list Product.t) : list Product.t :=
  match ps with
  | [] => []
  | p :: rest =>
      if bool_decide (Product._id p = id) then f p :: rest
      else p :: replace_first id f rest
  end.

(** [Product.findByIdAndUpdate(id, { $inc: { quantity: delta } },
    { new: true })]: the document after the update, if there is one. *)
Definition findByIdAndUpdate_inc (id : ObjectId) (delta : Z)
    : M (option Product.t) :=
  fun w =>
    (Ok (inc_quantity delta <$>
           List.find (fun p => bool_decide (Product._id p = id)) (products w)),
     with_products (replace_first id (inc_quantity delta) (products w)) w).

(** [product.save()] of a loaded document. *)
Definition product_save (p : Product.t) : M unit :=
  fun w =>
    if product_valid p then
      (Ok tt,
       with_products (replace_first (Product._id p) (fun _ => p) (products w)) w)
    else (Throw (ValidationError "Product validation failed"), w).

Definition updateInventory (now : Z) (productId : ObjectId) (quantity : Z)
    (operation : Operation) : M (option Product.t) :=
  try_catch
    (let update :=
       match operation with
       | add => quantity
       | subtract => - quantity
       end in
     product <- findByIdAndUpdate_inc productId update ;;
     match product with
     | Some product =>
         product <-
           (if bool_decide (Product.quantity product <= 0)
               && negb (bool_decide (Product.status product = "out_of_stock"))
            then
              let product := set_status "out_of_stock" product in
              product_save product ;; ret product
            else if bool_decide (0 < Product.quantity product)
                    && bool_decide (Product.status product = "out_of_stock")
            then
              let product := set_status "active" product in
              product_save product ;; ret product
            else ret product) ;;
         Redis.del now (KProduct productId) ;;
         publishMessage
           {| ev_productId := Product._id product;
              ev_sku := Product.sku product;
              ev_newQuantity := Product.quantity product;
              ev_status := Product.status product |} ;;
         ret (Some product)
     | None => ret None
     end)
    (fun error =>
       logger_error "Error updating inventory:" error ;;
       throw error).

End Inventory.

(** ** Driving a sequence of requests through the rate limiter *)

Fixpoint hits (limit windowMs : Z) (req : Request) (times : list Z)
    (w : World) : list (Result (Outcome unit)) * World :=
  match times with
  | [] => ([], w)
  | t :: rest =>
      let '(r, w1) := rateLimiter limit windowMs t req w in
      let '(rs, w2) := hits limit windowMs req rest w1 in
      (r :: rs, w2)
  end.

(** ** Concrete worlds used by the examples *)

Definition empty_world : World :=
  {| users := []; products := []; next_oid := 1%N; redis := ∅;
     redis_ready := true; log := []; outbox := []; published := [] |}.

Definition alice : RegisterBody :=
  {| reg_email := "alice@example.com"; reg_password := "correct horse";
     reg_firstName := "Alice"; reg_lastName := "Liddell";
     reg_phoneNumber := None |}.

Definition alice_login : LoginBody :=
  {| login_email := "alice@example.com"; login_password := "correct horse" |}.

(** A body whose address and names the schema setters change. *)
Definition bob : RegisterBody :=
  {| reg_email := "  Bob@Example.COM "; reg_password := "hunter2hunter2";
     reg_firstName := " Bob"; reg_lastName := "Stone  ";
     reg_phoneNumber := Some " 555 0100 " |}.

Definition client : Request := {| ip := "10.0.0.7"; path := "/login" |}.

(** ** Replies, verdicts and worlds that the statements name *)

(** The reply of a successful refresh. *)
Definition refreshed (env : option string) (now : Z) (u : IUser) : Http.Response :=
  {| Http.status := 200; Http.success := true; Http.message := None;
     Http.data :=
       Http.Access
         (Jwt.sign (access_claims u) (JWT_SECRET env) JWT_EXPIRES_IN now)
         JWT_EXPIRES_IN;
     Http.error := None |}.

(** The refresh token that a reply hands out, if any. *)
Definition issued_refresh (r : Http.Response) : option Jwt.Token :=
  match Http.data r with
  | Http.Session _ tokens => Some (Http.refreshToken tokens)
  | _ => None
  end.

(** The reply of a successful verification. *)
Definition verified : Http.Response :=
  {| Http.status := 200; Http.success := true;
     Http.message := Some "Email verified successfully";
     Http.data := Http.NoData; Http.error := None |}.

(** The world after a successful verification of [id]. *)
Definition after_verification (id : ObjectId) (w : World) : World :=
  with_redis (delete (KVerify id) (redis w))
    (with_users (User.update_first id User.set_verified (users w)) w).

(** The record that [register] creates for a body in world [w]. *)
Definition registered_user (w : World) (body : RegisterBody) : IUser :=
  {| _id := next_oid w;
     email := JsString.toLowerCase (JsString.trim (reg_email body));
     password := Bcrypt 10 (reg_password body);
     firstName := JsString.trim (reg_firstName body);
     lastName := JsString.trim (reg_lastName body);
     phoneNumber := JsString.trim <$> reg_phoneNumber body;
     isEmailVerified := false; role := "customer" |}.

(** The limiter's answer to the [n]-th request of a window. *)
Definition throttled : Http.Response :=
  Http.fail 429 "Too many requests, please try again later".

Definition verdict (limit n : Z) : Outcome unit :=
  if bool_decide (limit < n) then Reply throttled else Next tt.

(** The signed change that an operation applies to the stock. *)
Definition stock_delta (operation : Operation) (quantity : Z) : Z :=
  match operation with
  | add => quantity
  | subtract => - quantity
  end.

(** The status that [updateInventory] leaves on a product. *)
Definition stock_status (quantity : Z) (before : string) : string :=
  if bool_decide (quantity <= 0) then "out_of_stock"
  else if bool_decide (before = "out_of_stock") then "active"
  else before.

(** The access token that a reply hands out, if any. *)
Definition issued_access (r : Http.Response) : option Jwt.Token :=
  match Http.data r with
  | Http.Session _ tokens => Some (Http.accessToken tokens)
  | Http.Access t _ => Some t
  | Http.NoData => None
  end.

(** The reply of a successful logout. *)
Definition logged_out : Http.Response :=
  {| Http.status := 200; Http.success := true;
     Http.message := Some "Logged out successfully";
     Http.data := Http.NoData; Http.error := None |}.

Definition alice_id : ObjectId := 1%N.

Definition alice_claims : Jwt.Claims :=
  {| Jwt.userId := alice_id; Jwt.email := Some "alice@example.com";
     Jwt.role := Some "customer" |}.

Definition alice_access (t : Z) : Jwt.Token :=
  Jwt.sign alice_claims "your-secret-key" (Days 7) t.

Definition alice_refresh (t : Z) : Jwt.Token :=
  Jwt.sign {| Jwt.userId := alice_id; Jwt.email := None; Jwt.role := None |}
    "your-secret-key" (Days 30) t.

Definition alice_verification : Jwt.Token :=
  Jwt.sign {| Jwt.userId := alice_id; Jwt.email := Some "alice@example.com";
              Jwt.role := None |}
    "your-secret-key" (Hours 24) 0.

(** Alice registers at 0 s, verifies her address at 5 s, logs in at 10 s
    and logs out at 20 s. *)
Definition registered_world : World :=
  snd (register None 0 alice empty_world).

Definition verified_world : World :=
  snd (verifyEmail None 5000 (Some alice_verification) registered_world).

Definition logged_in_world : World :=
  snd (login None 10000 alice_login verified_world).

Definition logged_out_world : World :=
  snd (protected None (logout 20000) 20000
         (Some (Bearer (alice_access 10000))) logged_in_world).

(** The value a run returned, if it did not throw. *)
Definition reply {A} (run : Result A * World) : option A :=
  match fst run with
  | Ok a => Some a
  | Throw _ => None
  end.

Definition alice_record : IUser :=
  {| _id := alice_id; email := "alice@example.com";
     password := Bcrypt 10 "correct horse";
     firstName := "Alice"; lastName := "Liddell"; phoneNumber := None;
     isEmailVerified := true; role := "customer" |}.

Definition alice_wrong_password : LoginBody :=
  {| login_email := "alice@example.com"; login_password := "battery staple" |}.

Definition bob_login : LoginBody :=
  {| login_email := "bob@example.com"; login_password := "correct horse" |}.

(** Alice logs in a second time, 400 ms or 10 s after the first login. *)
Definition relogged_same_second : World :=
  snd (login None 10400 alice_login logged_in_world).

Definition relogged_later : World :=
  snd (login None 20000 alice_login logged_in_world).

(** Alice's record is removed while her refresh token is still stored. *)
Definition orphaned_world : World := with_users [] logged_in_world.

(** A world whose Redis client is closed. *)
Definition offline_world : World :=
  {| users := []; products := []; next_oid := 1%N; redis := ∅;
     redis_ready := false; log := []; outbox := []; published := [] |}.

Definition widget : Product.t :=
  {| Product._id := 7%N; Product.sku := "PROD-7"; Product.quantity := 2;
     Product.status := "active" |}.

Definition shop : World := with_products [widget] empty_world.

(** ** The role check of the auth middleware *)

(** [authorize(...roles)]: the middleware it returns, applied to the
    [req.user] that [authenticate] left, if any. *)
Definition authorize (roles : list string) (user : option Jwt.Claims)
    : Outcome Jwt.Claims :=
  match user with
  | None => Reply (Http.fail 401 "Unauthorized")
  | Some claims =>
      if negb (match Jwt.role claims with
               | Some r => bool_decide (r ∈ roles)
               | None => false
               end)
      then Reply (Http.fail 403 "Forbidden: Insufficient permissions")
      else Next claims
  end.

(** A route mounted behind [authenticate, authorize(...roles)]. *)
Definition restricted (env : option string) (roles : list string)
    (handler : option Jwt.Claims -> M Http.Response)
    (now : Z) (authorization : option Authorization) : M Http.Response :=
  outcome <- authenticate env now authorization ;;
  match outcome with
  | Reply r => ret r
  | Next claims =>
      match authorize roles (Some claims) with
      | Reply r => ret r
      | Next claims => handler (Some claims)
      end
  end.

(** ** The gateway's own token check ([api-gateway/src/index.ts]) *)
Module Gateway.

(** [res.status(401).json({ error })], or [next()] with [req.user] set. *)
Inductive Outcome :=
  | Rejected (status : Z) (error : string)
  | Forwarded (user : Jwt.Claims).

(** [jwt.verify(token, process.env.JWT_SECRET!)]: without a secret no
    signed token verifies. *)
Definition verify (env_JWT_SECRET : option string) (token : Jwt.Token)
    (now : Z) : Jwt.Error + Jwt.Claims :=
  match env_JWT_SECRET with
  | None | Some "" => inl Jwt.JsonWebTokenError
  | Some secret => Jwt.verify token secret now
  end.

(** The header is given by its pieces, [authorization.split(' ')]; the
    token is the second one. *)
Definition authenticate (env_JWT_SECRET : option string) (now : Z)
    (authorization : option (list Jwt.Token)) : Outcome :=
  let token :=
    match authorization with
    | Some pieces => pieces !! 1%nat
    | None => None
    end in
  if negb (Jwt.truthy token) then Rejected 401 "Authentication required"
  else
    match verify env_JWT_SECRET (default (Jwt.Text "") token) now with
    | inr decoded => Forwarded decoded
    | inl _ => Rejected 401 "Invalid token"
    end.

End Gateway.

(** ** The product schema and the inventory endpoint *)

(** The validators of [ProductSchema] on the modelled paths: [sku]
    required, [quantity] with [min: 0], [status] within its enumeration.
    The other paths of a stored document are taken to be valid. *)
Definition product_schema_valid (p : Product.t) : bool :=
  negb (bool_decide (Product.sku p = ""))
  && bool_decide (0 <= Product.quantity p)
  && bool_decide
       (Product.status p ∈ ["draft"; "active"; "archived"; "out_of_stock"]).

Module ProductController.

(** [req.body] of the inventory endpoint. *)
Record Body := {
  quantity : option Z;
  operation : option string
}.

(** [res.status(code).json({ success, message, data })] *)
Record Response := {
  status : Z;
  success : bool;
  message : option string;
  data : option Product.t
}.

Definition fail (code : Z) (msg : string) : Response :=
  {| status := code; success := false; message := Some msg; data := None |}.

(** [!quantity]: a missing quantity and 0 are falsy. *)
Definition no_quantity (q : option Z) : bool :=
  match q with
  | None | Some 0 => true
  | Some _ => false
  end.

(** [!operation]: a missing operation and [''] are falsy. *)
Definition no_operation (o : option string) : bool :=
  match o with
  | None | Some "" => true
  | Some _ => false
  end.

(** [error.message || 'Internal server error'] *)
Definition message_of (e : Exn) : string :=
  match exn_message e with
  | "" => "Internal server error"
  | m => m
  end.

Definition updateInventory (product_valid : Product.t -> bool) (now : Z)
    (id : ObjectId) (body : Body) : M Response :=
  try_catch
    (if no_quantity (quantity body) || no_operation (operation body)
        || negb (bool_decide (default "" (operation body) ∈ ["add"; "subtract"]))
     then ret (fail 400 "Invalid request body")
     else
       product <-
         updateInventory product_valid now id
           (default 0 (quantity body))
           (if bool_decide (default "" (operation body) = "add")
            then add else subtract) ;;
       match product with
       | None => ret (fail 404 "Product not found")
       | Some product =>
           ret {| status := 200; success := true; message := None;
                  data := Some product |}
       end)
    (fun error =>
       logger_error "Update inventory error:" error ;;
       ret (fail 500 (message_of error))).

End ProductController.

(** ** Replies and worlds that the further statements name *)

(** The reply of a successful login of [u] at [now]. *)
Definition login_session (env : option string) (now : Z) (u : IUser)
    : Http.Response :=
  {| Http.status := 200; Http.success := true; Http.message := None;
     Http.data :=
       Http.Session (user_view u)
         {| Http.accessToken :=
              Jwt.sign (access_claims u) (JWT_SECRET env) JWT_EXPIRES_IN now;
            Http.refreshToken :=
              Jwt.sign (refresh_claims u) (JWT_SECRET env)
                REFRESH_TOKEN_EXPIRES_IN now;
            Http.expiresIn := JWT_EXPIRES_IN |};
     Http.error := None |}.

(** The store after [setEx('refresh:' + id, 30 days, token)] at [now]. *)
Definition store_refresh (now : Z) (u : IUser) (token : Jwt.Token)
    (store : gmap Key Entry) : gmap Key Entry :=
  <[KRefresh (_id u) :=
      {| value := VString token;
         expires_at := Some (now + 30 * 86400 * 1000) |}]> store.

(** The shape of the user collection that the handlers maintain: one
    record per e-mail and per [_id], every [_id] already handed out by the
    driver, every password stored as a digest. *)
Definition users_wf (w : World) : Prop :=
  NoDup (email <$> users w)
  /\ NoDup (_id <$> users w)
  /\ Forall (fun u => (_id u < next_oid w)%N) (users w)
  /\ Forall (fun u => exists rounds p, password u = Bcrypt rounds p) (users w).

(** The event that [updateInventory] publishes for a product. *)
Definition inventory_event (p : Product.t) : InventoryEvent :=
  {| ev_productId := Product._id p; ev_sku := Product.sku p;
     ev_newQuantity := Product.quantity p; ev_status := Product.status p |}.

(** [Product.findById(id)] on a collection. *)
Definition product_by_id (id : ObjectId) (ps : list Product.t)
    : option Product.t :=
  List.find (fun p => bool_decide (Product._id p = id)) ps.

Definition gadget : Product.t :=
  {| Product._id := 8%N; Product.sku := "PROD-8"; Product.quantity := 5;
     Product.status := "archived" |}.

Definition warehouse : World := with_products [widget; gadget] empty_world.

(** ** Slugs

    The pre-save hook of the product schema:
    [name.toLowerCase().replace(/[^\w\s]/g, '').replace(/\s+/g, '-')
    .replace(/-+/g, '-')], on ASCII text, where [toLowerCase] and the
    classes [\w] and [\s] are those of ASCII. *)
Module Slug.

Definition code (c : ascii) : N := Ascii.N_of_ascii c.

Definition between (lo hi : N) (c : ascii) : bool :=
  (lo <=? code c)%N && (code c <=? hi)%N.

Definition is_ascii (c : ascii) : bool := (code c <? 128)%N.
Definition is_upper (c : ascii) : bool := between 65 90 c.
Definition is_lower (c : ascii) : bool := between 97 122 c.
Definition is_digit (c : ascii) : bool := between 48 57 c.
Definition is_hyphen (c : ascii) : bool := (code c =? 45)%N.

(** [\w] *)
Definition is_word (c : ascii) : bool :=
  is_upper c || is_lower c || is_digit c || (code c =? 95)%N.

(** [\s]: tab, line feed, vertical tab, form feed, carriage return,
    space. *)
Definition is_space (c : ascii) : bool :=
  between 9 13 c || (code c =? 32)%N.

Definition to_lower (c : ascii) : ascii :=
  if is_upper c then Ascii.ascii_of_N (code c + 32) else c.

Fixpoint map_chars (f : ascii -> ascii) (s : string) : string :=
  match s with
  | EmptyString => EmptyString
  | String c rest => String (f c) (map_chars f rest)
  end.

Fixpoint filter_chars (keep : ascii -> bool) (s : string) : string :=
  match s with
  | EmptyString => EmptyString
  | String c rest =>
      if keep c then String c (filter_chars keep rest)
      else filter_chars keep rest
  end.

Fixpoint all_chars (p : ascii -> bool) (s : string) : bool :=
  match s with
  | EmptyString => true
  | String c rest => p c && all_chars p rest
  end.

(** [s.replace(/p+/g, by)]: every maximal run of characters of the class
    becomes one [by]; [in_run] says that the character before was of the
    class. *)
Fixpoint squeeze_from (in_run : bool) (p : ascii -> bool) (by_ : ascii)
    (s : string) : string :=
  match s with
  | EmptyString => EmptyString
  | String c rest =>
      if p c then
        if in_run then squeeze_from true p by_ rest
        else String by_ (squeeze_from true p by_ rest)
      else String c (squeeze_from false p by_ rest)
  end.

Definition squeeze (p : ascii -> bool) (by_ : ascii) (s : string) : string :=
  squeeze_from false p by_ s.

(** [.toLowerCase()] *)
Definition toLowerCase (s : string) : string := map_chars to_lower s.

(** [.replace(/[^\w\s]/g, '')] *)
Definition strip (s : string) : string :=
  filter_chars (fun c => is_word c || is_space c) s.

Definition slugify (name : string) : string :=
  squeeze is_hyphen "-"%char
    (squeeze is_space "-"%char (strip (toLowerCase name))).

(** A character that a slug can contain: [a-z], [0-9], [_] or [-]. *)
Definition slug_char (c : ascii) : bool :=
  is_lower c || is_digit c || (code c =? 95)%N || is_hyphen c.

(** No two hyphens side by side. *)
Fixpoint single_hyphens (s : string) : bool :=
  match s with
  | EmptyString => true
  | String c rest =>
      match rest with
      | String d _ => negb (is_hyphen c && is_hyphen d)
      | EmptyString => true
      end && single_hyphens rest
  end.

End Slug.

(** * Properties *)

(** ** Basic facts about the world and the store *)

Lemma with_redis_id (w : World) : with_redis (redis w) w = w.
Proof. by destruct w. Qed.

Lemma command_ready {A} (f : gmap Key Entry -> Result A * gmap Key Entry) w :
  redis_ready w = true ->
  Redis.command f w = (fst (f (redis w)), with_redis (snd (f (redis w))) w).
Proof. intros H. unfold Redis.command. rewrite H. by destruct (f (redis w)). Qed.

Lemma command_closed {A} (f : gmap Key Entry -> Result A * gmap Key Entry) w :
  redis_ready w = false -> Redis.command f w = (Throw Redis.closed, w).
Proof. intros H. unfold Redis.command. by rewrite H. Qed.

(** What a successful run of a composed computation went through. *)
Lemma bind_ok {A B} (m : M A) (k : A -> M B) w b w' :
  bind m k w = (Ok b, w') ->
  exists a w1, m w = (Ok a, w1) /\ k a w1 = (Ok b, w').
Proof.
  unfold bind. destruct (m w) as [[a|e] w1]; [|done]. eauto.
Qed.

Lemma try_catch_ok {A} (body : M A) (handler : Exn -> M A) w a w' :
  try_catch body handler w = (Ok a, w') ->
  body w = (Ok a, w')
  \/ exists e w1, body w = (Throw e, w1) /\ handler e w1 = (Ok a, w').
Proof.
  unfold try_catch. destruct (body w) as [[a0|e] w1]; [by left|].
  right. eauto.
Qed.

(** A read leaves the world as it was. *)
Lemma get_world now k w : snd (Redis.get now k w) = w.
Proof.
  unfold Redis.get, Redis.command.
  destruct (redis_ready w); simpl; [apply with_redis_id | done].
Qed.

(** A read that answers was served by an open client, from the live cell
    of the key. *)
Lemma get_ok now k w v :
  fst (Redis.get now k w) = Ok v ->
  redis_ready w = true /\ value <$> Redis.peek now k (redis w) = v.
Proof.
  unfold Redis.get, Redis.command.
  destruct (redis_ready w); simpl; [|done]. by intros [= <-].
Qed.

Lemma get_ready now k w :
  redis_ready w = true ->
  Redis.get now k w = (Ok (value <$> Redis.peek now k (redis w)), w).
Proof.
  intros H. unfold Redis.get. rewrite command_ready by done. simpl.
  by rewrite with_redis_id.
Qed.

Lemma peek_delete now k store : Redis.peek now k (delete k store) = None.
Proof. unfold Redis.peek. by rewrite lookup_delete_eq. Qed.

Lemma peek_insert now k e store :
  Redis.peek now k (<[k := e]> store) = if live now e then Some e else None.
Proof. unfold Redis.peek. by rewrite lookup_insert_eq. Qed.

Lemma jwt_verify_world env now tok w : snd (jwt_verify env now tok w) = w.
Proof. unfold jwt_verify. by destruct (Jwt.verify _ _ _). Qed.

Lemma jwt_verify_ok env now tok w claims :
  fst (jwt_verify env now tok w) = Ok claims ->
  Jwt.verify tok (JWT_SECRET env) now = inr claims.
Proof.
  unfold jwt_verify. destruct (Jwt.verify _ _ _); simpl; [done|].
  by intros [= ->].
Qed.

Lemma jwt_verify_inr env now tok w claims :
  Jwt.verify tok (JWT_SECRET env) now = inr claims ->
  jwt_verify env now tok w = (Ok claims, w).
Proof. unfold jwt_verify. by intros ->. Qed.

Lemma jwt_verify_inl env now tok w e :
  Jwt.verify tok (JWT_SECRET env) now = inl e ->
  jwt_verify env now tok w = (Throw (JwtError e), w).
Proof. unfold jwt_verify. by intros ->. Qed.

(** A token that verifies is a non-empty string. *)
Lemma verify_truthy tok secret now claims :
  Jwt.verify tok secret now = inr claims -> Jwt.truthy (Some tok) = true.
Proof. by destruct tok. Qed.

(** The claims of a token do not depend on when it is verified. *)
Lemma verify_claims tok secret now now' c c' :
  Jwt.verify tok secret now = inr c ->
  Jwt.verify tok secret now' = inr c' -> c = c'.
Proof.
  destruct tok; simpl; [|done].
  repeat case_match; congruence.
Qed.

(** ** Login *)

(** C4.  A login for an e-mail without a user record and a login for a
    known e-mail with a password that does not match get the same reply,
    status 401 with the message 'Invalid credentials', and leave the world
    untouched; a login with the right password for an account whose
    e-mail is not verified gets 403. *)
Theorem login_rejections (env : option string) (now : Z) (w : World) :
  (forall unknown known u,
      fst (User.findOne (login_email unknown) w) = Ok None ->
      fst (User.findOne (login_email known) w) = Ok (Some u) ->
      fst (User.comparePassword u (login_password known) w) = Ok false ->
      login env now unknown w = (Ok (Http.fail 401 "Invalid credentials"), w)
      /\ login env now known w = (Ok (Http.fail 401 "Invalid credentials"), w)
      /\ fst (login env now unknown w) = fst (login env now known w))
  /\ (forall body u,
      fst (User.findOne (login_email body) w) = Ok (Some u) ->
      fst (User.comparePassword u (login_password body) w) = Ok true ->
      isEmailVerified u = false ->
      login env now body w
      = (Ok (Http.fail 403 "Please verify your email first"), w)).
Proof.
  split.
  - intros unknown known u Hno Hyes Hpw.
    assert (Hu : login env now unknown w
                 = (Ok (Http.fail 401 "Invalid credentials"), w)).
    { unfold login, try_catch, bind, User.findOne in *. simpl in *.
      injection Hno as ->. done. }
    assert (Hk : login env now known w
                 = (Ok (Http.fail 401 "Invalid credentials"), w)).
    { unfold login, try_catch, bind, User.findOne, User.comparePassword, ret in *.
      simpl in *. injection Hyes as ->. injection Hpw as ->. done. }
    by rewrite Hu, Hk.
  - intros body u Hyes Hpw Hver.
    unfold login, try_catch, bind, User.findOne, User.comparePassword, ret in *.
    simpl in *. injection Hyes as ->. injection Hpw as ->. by rewrite Hver.
Qed.

(** ** Refresh *)

(** Every 200 of [refreshToken] went through the signature check, the
    comparison with the stored value and the user lookup, and wrote
    nothing. *)
Lemma refreshToken_200 env now body w r w' :
  refreshToken env now body w = (Ok r, w') ->
  Http.status r = 200 ->
  exists tok claims u,
    body = Some tok
    /\ Jwt.verify tok (JWT_SECRET env) now = inr claims
    /\ redis_ready w = true
    /\ value <$> Redis.peek now (KRefresh (Jwt.userId claims)) (redis w)
       = Some (VString tok)
    /\ User.lookup (fun v => bool_decide (_id v = Jwt.userId claims)) (users w)
       = Some u
    /\ r = refreshed env now u
    /\ w' = w.
Proof.
  unfold refreshToken, try_catch, bind.
  destruct (Jwt.truthy body) eqn:Htruthy; simpl.
  2: { intros [= <- <-]. done. }
  destruct body as [tok|]; [|done]. simpl.
  destruct (jwt_verify env now tok w) as [[claims|e] w1] eqn:Hv.
  2: { intros [= <- <-]. done. }
  pose proof (jwt_verify_world env now tok w) as Hw1. rewrite Hv in Hw1.
  simpl in Hw1. subst w1.
  assert (Hc := jwt_verify_ok env now tok w claims). rewrite Hv in Hc.
  specialize (Hc eq_refl).
  destruct (Redis.get now (KRefresh (Jwt.userId claims)) w)
    as [[stored|e] w1] eqn:Hg.
  2: { intros [= <- <-]. done. }
  pose proof (get_world now (KRefresh (Jwt.userId claims)) w) as Hw1.
  rewrite Hg in Hw1. simpl in Hw1. subst w1.
  pose proof (get_ok now (KRefresh (Jwt.userId claims)) w stored) as Hs.
  rewrite Hg in Hs. destruct (Hs eq_refl) as [Hready Hpeek].
  case_bool_decide as Heq; simpl.
  2: { intros [= <- <-]. done. }
  unfold User.findById. simpl.
  destruct (User.lookup _ (users w)) as [u|] eqn:Hu; simpl.
  2: { intros [= <- <-]. done. }
  intros [= <- <-] _. exists tok, claims, u. subst stored. done.
Qed.

(** C5.  A successful refresh issues a new access token and nothing else:
    the reply carries an access token and no refresh token, and the world
    after the call is the world before it, so the value under the
    subject's refresh key and every other key of the store is unchanged. *)
Theorem refresh_does_not_rotate (env : option string) (now : Z)
    (body : option Jwt.Token) (w w' : World) (r : Http.Response) :
  refreshToken env now body w = (Ok r, w') ->
  Http.status r = 200 ->
  (exists access, Http.data r = Http.Access access JWT_EXPIRES_IN)
  /\ issued_refresh r = None
  /\ redis w' = redis w
  /\ w' = w.
Proof.
  intros Hrun H200.
  destruct (refreshToken_200 _ _ _ _ _ _ Hrun H200)
    as (tok & claims & u & _ & _ & _ & _ & _ & -> & ->).
  split; [by eexists|done].
Qed.

(** C9.  A refresh token that verifies and equals the stored value of a
    subject whose user record is gone is answered 404 'User not found':
    no access token is issued and nothing is written. *)
Theorem refresh_user_not_found (env : option string) (now : Z)
    (tok : Jwt.Token) (claims : Jwt.Claims) (w : World) :
  fst (jwt_verify env now tok w) = Ok claims ->
  fst (Redis.get now (KRefresh (Jwt.userId claims)) w) = Ok (Some (VString tok)) ->
  fst (User.findById (Jwt.userId claims) w) = Ok None ->
  refreshToken env now (Some tok) w = (Ok (Http.fail 404 "User not found"), w)
  /\ Http.data (Http.fail 404 "User not found") = Http.NoData.
Proof.
  intros Hv Hg Hu. split; [|done].
  apply jwt_verify_ok in Hv.
  apply get_ok in Hg as [Hready Hpeek].
  unfold refreshToken, try_catch, bind.
  rewrite (verify_truthy _ _ _ _ Hv). simpl.
  rewrite (jwt_verify_inr _ _ _ _ _ Hv).
  rewrite get_ready by done. rewrite Hpeek.
  rewrite bool_decide_eq_true_2 by done. simpl.
  unfold User.findById in *. simpl in *. injection Hu as ->. done.
Qed.

(** A login that hands out a refresh token found the user by e-mail,
    signed the token for that user at the time of the call, and stored it
    under the user's refresh key, replacing what was there. *)
Lemma login_issues env now body w r w' rt :
  login env now body w = (Ok r, w') ->
  issued_refresh r = Some rt ->
  exists u,
    User.lookup
      (fun v => bool_decide (email v = User.email_setters (login_email body)))
      (users w)
    = Some u
    /\ rt = Jwt.sign (refresh_claims u) (JWT_SECRET env)
               REFRESH_TOKEN_EXPIRES_IN now
    /\ redis_ready w = true
    /\ w' = with_redis
              (<[KRefresh (_id u) :=
                   {| value := VString rt;
                      expires_at := Some (now + 30 * 86400 * 1000) |}]> (redis w))
              w.
Proof.
  unfold login, try_catch, bind, User.findOne, User.comparePassword, ret.
  simpl.
  destruct (User.lookup _ (users w)) as [u|] eqn:Hu; simpl.
  2: { intros [= <- <-]. done. }
  destruct (password u) as [p|n p]; simpl.
  { intros [= <- <-]. done. }
  case_bool_decide; simpl.
  2: { intros [= <- <-]. done. }
  destruct (isEmailVerified u); simpl.
  2: { intros [= <- <-]. done. }
  unfold Redis.setEx, Redis.command.
  destruct (redis_ready w) eqn:Hready; simpl.
  2: { intros [= <- <-]. done. }
  intros [= <- <-]. simpl. intros [= <-].
  exists u. done.
Qed.

(** C2, as the code has it.  A refresh is honoured only when the presented
    token equals the value stored under the subject's refresh key; and
    after two logins of one subject, a refresh with the first login's
    token is answered 401 'Invalid refresh token' whenever the second
    login issued a different token. *)
Theorem refresh_only_stored_token (env : option string) :
  (forall now body w r w',
      refreshToken env now body w = (Ok r, w') ->
      Http.status r = 200 ->
      exists tok claims,
        body = Some tok
        /\ fst (jwt_verify env now tok w) = Ok claims
        /\ fst (Redis.get now (KRefresh (Jwt.userId claims)) w)
           = Ok (Some (VString tok)))
  /\ (forall w t1 t2 t3 b1 b2 r1 r2 w1 w2 rt1 rt2,
      login env t1 b1 w = (Ok r1, w1) ->
      issued_refresh r1 = Some rt1 ->
      login_email b2 = login_email b1 ->
      login env t2 b2 w1 = (Ok r2, w2) ->
      issued_refresh r2 = Some rt2 ->
      rt1 <> rt2 ->
      fst (refreshToken env t3 (Some rt1) w2)
      = Ok (Http.fail 401 "Invalid refresh token")).
Proof.
  split.
  - intros now body w r w' Hrun H200.
    destruct (refreshToken_200 _ _ _ _ _ _ Hrun H200)
      as (tok & claims & u & -> & Hv & Hready & Hpeek & _).
    exists tok, claims. split; [done|].
    rewrite (jwt_verify_inr _ _ _ _ _ Hv), get_ready by done.
    simpl. by rewrite Hpeek.
  - intros w t1 t2 t3 b1 b2 r1 r2 w1 w2 rt1 rt2 H1 Hrt1 Hmail H2 Hrt2 Hne.
    destruct (login_issues _ _ _ _ _ _ _ H1 Hrt1) as (u & Hu & -> & Hready & ->).
    destruct (login_issues _ _ _ _ _ _ _ H2 Hrt2) as (u' & Hu' & -> & _ & ->).
    simpl in Hu'. rewrite Hmail, Hu in Hu'. injection Hu' as <-.
    unfold refreshToken, try_catch, bind. simpl.
    destruct (Jwt.verify
                (Jwt.sign (refresh_claims u) (JWT_SECRET env)
                   REFRESH_TOKEN_EXPIRES_IN t1) (JWT_SECRET env) t3)
      as [e|claims] eqn:Hv.
    + by rewrite (jwt_verify_inl _ _ _ _ _ Hv).
    + rewrite (jwt_verify_inr _ _ _ _ _ Hv).
      assert (claims = refresh_claims u) as ->.
      { simpl in Hv. repeat case_match; congruence. }
      rewrite get_ready by done. simpl.
      rewrite peek_insert.
      case_bool_decide as Heq; [|done].
      exfalso. apply Hne. destruct (live t3 _); simpl in Heq; congruence.
Qed.

(** ** E-mail verification *)

Lemma lookup_update_first id (f : IUser -> IUser) us :
  (forall u, _id (f u) = _id u) ->
  User.lookup (fun v => bool_decide (_id v = id)) (User.update_first id f us)
  = f <$> User.lookup (fun v => bool_decide (_id v = id)) us.
Proof.
  intros Hid. unfold User.lookup.
  induction us as [|u us IH]; simpl; [done|].
  case_bool_decide as Hu; simpl.
  - rewrite bool_decide_eq_true_2; [done|]. by rewrite Hid.
  - rewrite bool_decide_eq_false_2 by done. apply IH.
Qed.

(** A presented token that is not the stored one is refused. *)
Lemma verifyEmail_mismatch env now tok w :
  Jwt.truthy (Some tok) = true ->
  (forall claims,
      fst (jwt_verify env now tok w) = Ok claims ->
      fst (Redis.get now (KVerify (Jwt.userId claims)) w)
      <> Ok (Some (VString tok))) ->
  fst (verifyEmail env now (Some tok) w)
  = Ok (Http.fail 400 "Invalid or expired verification token").
Proof.
  intros Htruthy Hne.
  unfold verifyEmail, try_catch, bind. rewrite Htruthy. simpl.
  destruct (jwt_verify env now tok w) as [[claims|e] w1] eqn:Hv; [|done].
  pose proof (jwt_verify_world env now tok w) as Hw1. rewrite Hv in Hw1.
  simpl in Hw1. subst w1.
  specialize (Hne claims eq_refl).
  destruct (Redis.get now (KVerify (Jwt.userId claims)) w)
    as [[stored|e] w1] eqn:Hg; [|done].
  simpl in Hne.
  case_bool_decide as Heq; simpl; [|done].
  congruence.
Qed.

(** C6.  Verification is single-use.  A call presenting the token stored
    for the subject is answered 200, sets [isEmailVerified] on the
    subject's record and deletes the stored token, so that any later call
    presenting the same token is answered 400 'Invalid or expired
    verification token'; and any presented token that does not match the
    stored one is answered the same 400. *)
Theorem verify_email_single_use (env : option string) :
  (forall now tok claims w,
      fst (jwt_verify env now tok w) = Ok claims ->
      fst (Redis.get now (KVerify (Jwt.userId claims)) w)
      = Ok (Some (VString tok)) ->
      let w' := after_verification (Jwt.userId claims) w in
      verifyEmail env now (Some tok) w = (Ok verified, w')
      /\ (forall u,
             fst (User.findById (Jwt.userId claims) w) = Ok (Some u) ->
             fst (User.findById (Jwt.userId claims) w')
             = Ok (Some (User.set_verified u))
             /\ isEmailVerified (User.set_verified u) = true)
      /\ redis w' !! KVerify (Jwt.userId claims) = None
      /\ forall now',
           fst (verifyEmail env now' (Some tok) w')
           = Ok (Http.fail 400 "Invalid or expired verification token"))
  /\ (forall now tok w,
      Jwt.truthy (Some tok) = true ->
      (forall claims,
          fst (jwt_verify env now tok w) = Ok claims ->
          fst (Redis.get now (KVerify (Jwt.userId claims)) w)
          <> Ok (Some (VString tok))) ->
      fst (verifyEmail env now (Some tok) w)
      = Ok (Http.fail 400 "Invalid or expired verification token")).
Proof.
  split; [|apply verifyEmail_mismatch].
  intros now tok claims w Hv Hg w'.
  apply jwt_verify_ok in Hv.
  apply get_ok in Hg as [Hready Hpeek].
  assert (Htruthy := verify_truthy _ _ _ _ Hv).
  split; [|split; [|split]].
  - unfold verifyEmail, try_catch, bind. rewrite Htruthy. simpl.
    rewrite (jwt_verify_inr _ _ _ _ _ Hv).
    rewrite get_ready by done. rewrite Hpeek.
    rewrite bool_decide_eq_true_2 by done. simpl.
    unfold Redis.del, Redis.command. simpl. rewrite Hready. done.
  - intros u Hu. split; [|done].
    unfold User.findById in *. simpl in *. injection Hu as Hu.
    rewrite lookup_update_first by done. by rewrite Hu.
  - simpl. apply lookup_delete_eq.
  - intros now'. apply verifyEmail_mismatch; [done|].
    intros claims' Hv'. apply jwt_verify_ok in Hv'.
    rewrite (verify_claims _ _ _ _ _ _ Hv' Hv).
    rewrite get_ready by done. simpl. by rewrite peek_delete.
Qed.

(** ** Registration *)

(** Lower-casing keeps a string non-empty. *)
Lemma toLowerCase_empty s : JsString.toLowerCase s = "" -> s = "".
Proof. by destruct s. Qed.

(** C7.  Registering an e-mail that already has a record is answered 400
    'User already exists' and changes nothing.  Registering a fresh
    e-mail, with a body the schema accepts (an ASCII address, address and
    names not blank, a password of eight characters or more) and the
    store reachable, appends the user, unverified, with the address
    trimmed and lower-cased, the names trimmed and the password digested;
    stores a verification token for 24 hours under the subject's verify
    key and a refresh token for 30 days under its refresh key; and is
    answered 201 with the user and an access and refresh token pair. *)
Theorem register_conflict_or_created (env : option string) (now : Z)
    (body : RegisterBody) (w : World) :
  (forall existing,
      fst (User.findOne (reg_email body) w) = Ok (Some existing) ->
      register env now body w = (Ok (Http.fail 400 "User already exists"), w))
  /\ (fst (User.findOne (reg_email body) w) = Ok None ->
      redis_ready w = true ->
      JsString.is_ascii (reg_email body) = true ->
      JsString.trim (reg_email body) <> "" ->
      (8 <= JsString.length (reg_password body))%nat ->
      JsString.trim (reg_firstName body) <> "" ->
      JsString.trim (reg_lastName body) <> "" ->
      let subject := next_oid w in
      let address := JsString.toLowerCase (JsString.trim (reg_email body)) in
      let first := JsString.trim (reg_firstName body) in
      let last := JsString.trim (reg_lastName body) in
      let secret := JWT_SECRET env in
      let verificationToken :=
        Jwt.sign {| Jwt.userId := subject; Jwt.email := Some address;
                    Jwt.role := None |} secret (Hours 24) now in
      let accessToken :=
        Jwt.sign {| Jwt.userId := subject; Jwt.email := Some address;
                    Jwt.role := Some "customer" |} secret (Days 7) now in
      let refreshToken :=
        Jwt.sign {| Jwt.userId := subject; Jwt.email := None;
                    Jwt.role := None |} secret (Days 30) now in
      exists r w',
        register env now body w = (Ok r, w')
        /\ Http.status r = 201
        /\ Http.data r
           = Http.Session
               {| Http.id := subject; Http.email := address;
                  Http.firstName := first; Http.lastName := last;
                  Http.role := "customer" |}
               {| Http.accessToken := accessToken;
                  Http.refreshToken := refreshToken;
                  Http.expiresIn := Days 7 |}
        /\ users w'
           = (users w
              ++ [{| _id := subject; email := address;
                     password := Bcrypt 10 (reg_password body);
                     firstName := first; lastName := last;
                     phoneNumber := JsString.trim <$> reg_phoneNumber body;
                     isEmailVerified := false; role := "customer" |}])%list
        /\ redis w'
           = <[KRefresh subject :=
                 {| value := VString refreshToken;
                    expires_at := Some (now + 30 * 86400 * 1000) |}]>
               (<[KVerify subject :=
                    {| value := VString verificationToken;
                       expires_at := Some (now + 86400 * 1000) |}]>
                  (redis w))).
Proof.
  split.
  - intros existing Hex.
    unfold register, try_catch, bind, User.findOne in *. simpl in *.
    injection Hex as ->. done.
  - intros Hfresh Hready _ Hmail Hpw Hfirst Hlast.
    unfold register, try_catch, bind, User.findOne, User.new, User.save in *.
    cbn [fst] in Hfresh. injection Hfresh as Hfresh.
    cbn beta iota. rewrite Hfresh. cbn beta iota.
    assert (Hvalid :
      User.validate
        {| _id := next_oid w; email := User.email_setters (reg_email body);
           password := Plain (reg_password body);
           firstName := JsString.trim (reg_firstName body);
           lastName := JsString.trim (reg_lastName body);
           phoneNumber := JsString.trim <$> reg_phoneNumber body;
           isEmailVerified := false; role := "customer" |} = true).
    { unfold User.validate. cbn [email password firstName lastName role].
      rewrite (bool_decide_eq_false_2
                 (User.email_setters (reg_email body) = "")).
      2: { intros Hempty. by apply toLowerCase_empty in Hempty. }
      rewrite (bool_decide_eq_false_2 (JsString.trim (reg_firstName body) = ""))
        by done.
      rewrite (bool_decide_eq_false_2 (JsString.trim (reg_lastName body) = ""))
        by done.
      rewrite (bool_decide_eq_true_2 (8 <= _)%nat) by done.
      done. }
    cbn [fst snd]. rewrite Hvalid. cbn [negb].
    cbn [users with_next_oid User.hash_password email password].
    unfold User.lookup in *. rewrite Hfresh.
    unfold Redis.setEx, Redis.command, sendVerificationEmail.
    simpl. rewrite Hready. simpl. rewrite Hready. simpl.
    eexists _, _. split; [reflexivity|]. done.
Qed.

(** ** Rate limiter *)

Lemma Qred_whole (z : Z) : Qred (Qmake z 1) = Qmake z 1.
Proof.
  unfold Qred.
  pose proof (Z.ggcd_gcd z 1) as Hg.
  pose proof (Z.ggcd_correct_divisors z 1) as Hd.
  pose proof (Z.gcd_nonneg z 1) as Hnn.
  destruct (Z.ggcd z 1) as [g [aa bb]]. simpl in *. subst g.
  destruct Hd as [Ha Hb].
  assert (Z.gcd z 1 = 1) as Hone by apply Z.gcd_1_r.
  rewrite Hone in *. rewrite Z.mul_1_l in Ha, Hb. by subst.
Qed.

(** [windowMs / 1000] is a whole number of seconds when [windowMs] is a
    multiple of 1000. *)
Lemma window_seconds (secs : Z) : Qred (Qmake (1000 * secs) 1000) = Qmake secs 1.
Proof.
  rewrite <- (Qred_whole secs). apply Qred_complete.
  unfold Qeq. simpl. lia.
Qed.

(** The first request of a window: the counter starts at 1 and the key
    gets the window as its time to live. *)
Lemma hit_fresh limit secs now req w :
  0 < secs ->
  redis_ready w = true ->
  Redis.peek now (ratelimit_key req) (redis w) = None ->
  rateLimiter limit (1000 * secs) now req w
  = (Ok (verdict limit 1),
     with_redis
       (<[ratelimit_key req :=
            {| value := VCounter 1;
               expires_at := Some (now + 1000 * secs) |}]> (redis w)) w).
Proof.
  intros Hsecs Hready Hpeek.
  unfold rateLimiter, try_catch, bind, Redis.incr, Redis.expire.
  rewrite command_ready by done. rewrite Hpeek. simpl.
  rewrite command_ready by done. simpl.
  rewrite window_seconds. simpl.
  rewrite peek_insert. simpl.
  rewrite (bool_decide_eq_false_2 (secs <= 0)) by lia.
  rewrite insert_insert_eq.
  unfold verdict, ret. rewrite (Z.mul_comm secs 1000).
  by destruct (bool_decide (limit < 1)).
Qed.

(** A later request of the same window: the counter goes up by one and
    the expiry stays where the first request put it. *)
Lemma hit_counted limit windowMs now req w n deadline :
  redis_ready w = true ->
  redis w !! ratelimit_key req
  = Some {| value := VCounter n; expires_at := Some deadline |} ->
  now <= deadline ->
  1 <= n ->
  rateLimiter limit windowMs now req w
  = (Ok (verdict limit (n + 1)),
     with_redis
       (<[ratelimit_key req :=
            {| value := VCounter (n + 1);
               expires_at := Some deadline |}]> (redis w)) w).
Proof.
  intros Hready Hcell Hnow Hn.
  unfold rateLimiter, try_catch, bind, Redis.incr.
  rewrite command_ready by done.
  unfold Redis.peek. rewrite Hcell. unfold live. simpl.
  rewrite (bool_decide_eq_true_2 (now <= deadline)) by done. simpl.
  rewrite (bool_decide_eq_false_2 (n + 1 = 1)) by lia. simpl.
  unfold verdict, ret.
  by destruct (bool_decide (limit < n + 1)).
Qed.

(** The requests of a window that is already open. *)
Lemma hits_counted limit windowMs req deadline ts :
  forall w n,
    redis_ready w = true ->
    redis w !! ratelimit_key req
    = Some {| value := VCounter n; expires_at := Some deadline |} ->
    1 <= n ->
    Forall (fun t => t <= deadline) ts ->
    exists w',
      hits limit windowMs req ts w
      = ((fun k : nat => Ok (verdict limit (n + Z.of_nat k)))
           <$> seq 1 (length ts), w')
      /\ redis_ready w' = true
      /\ redis w' !! ratelimit_key req
         = Some {| value := VCounter (n + Z.of_nat (length ts));
                   expires_at := Some deadline |}.
Proof.
  induction ts as [|t ts IH]; intros w n Hready Hcell Hn Hts.
  - exists w. simpl. rewrite Z.add_0_r. done.
  - apply Forall_cons in Hts as [Ht Hts].
    simpl hits.
    rewrite (hit_counted _ _ _ _ _ _ _ Hready Hcell Ht Hn).
    destruct (IH (with_redis
                    (<[ratelimit_key req :=
                         {| value := VCounter (n + 1);
                            expires_at := Some deadline |}]> (redis w)) w)
                 (n + 1)) as (w' & Hrun & Hready' & Hcell'); try done.
    { simpl. apply lookup_insert_eq. }
    { lia. }
    exists w'. rewrite Hrun. split; [|split; [done|]].
    + f_equal. simpl. f_equal.
      rewrite <- (fmap_S_seq 1), <- list_fmap_compose.
      apply list_fmap_ext. intros i k _. simpl. do 2 f_equal. lia.
    + rewrite Hcell'. do 3 f_equal. simpl length. lia.
Qed.

(** C3.  Fixed window.  When a key has no live counter at [t0], a request
    at [t0] followed by requests inside the window
    [t0 <= t < t0 + window] are answered in order: the [k]-th is let
    through when [k <= limit] and answered 429 otherwise; the first
    request gives the key the window as its time to live and the later
    ones count up without moving the expiry.  With limit 3 and a window
    of 60 s, requests at 0 s, 1 s and 2 s pass, the one at 3 s is
    answered 429, and the one at 61 s passes again. *)
Theorem rate_limit_fixed_window :
  (forall limit secs req t0 ts w,
      0 < secs ->
      redis_ready w = true ->
      Redis.peek t0 (ratelimit_key req) (redis w) = None ->
      Forall (fun t => t0 <= t < t0 + 1000 * secs) ts ->
      exists w',
        hits limit (1000 * secs) req (t0 :: ts) w
        = ((fun k : nat =>
              Ok (if bool_decide (Z.of_nat k <= limit)
                  then Next tt else Reply throttled))
             <$> seq 1 (S (length ts)), w')
        /\ redis w' !! ratelimit_key req
           = Some {| value := VCounter (Z.of_nat (S (length ts)));
                     expires_at := Some (t0 + 1000 * secs) |})
  /\ fst (hits 3 60000 client [0; 1000; 2000; 3000; 61000] empty_world)
     = [Ok (Next tt); Ok (Next tt); Ok (Next tt); Ok (Reply throttled);
        Ok (Next tt)].
Proof.
  split; [|by vm_compute].
  intros limit secs req t0 ts w Hsecs Hready Hpeek Hts.
  simpl hits. rewrite hit_fresh by done.
  destruct (hits_counted limit (1000 * secs) req (t0 + 1000 * secs) ts
              (with_redis
                 (<[ratelimit_key req :=
                      {| value := VCounter 1;
                         expires_at := Some (t0 + 1000 * secs) |}]> (redis w)) w)
              1) as (w' & Hrun & _ & Hcell); try done.
  { simpl. apply lookup_insert_eq. }
  { eapply Forall_impl; [exact Hts|]. simpl. lia. }
  exists w'. rewrite Hrun. split.
  - f_equal. simpl. f_equal.
    + unfold verdict. repeat case_bool_decide; (done || lia).
    + rewrite <- (fmap_S_seq 1), <- list_fmap_compose.
      apply list_fmap_ext. intros i k _. simpl. unfold verdict.
      repeat case_bool_decide; (done || lia).
  - rewrite Hcell. do 3 f_equal. lia.
Qed.

(** C8.  The limiter fails open: when [INCR] raises, or [INCR] answers 1
    and the [EXPIRE] that follows raises, the fault is logged and the
    request is handed on; in particular every request passes while the
    client is closed. *)
Theorem rate_limiter_fails_open (limit windowMs now : Z) (req : Request)
    (w : World) :
  (forall e w1,
      Redis.incr now (ratelimit_key req) w = (Throw e, w1) ->
      rateLimiter limit windowMs now req w
      = (Ok (Next tt),
         with_log (log w1 ++ [LogError "Rate limiter error:" e]) w1))
  /\ (forall e w1 w2,
      Redis.incr now (ratelimit_key req) w = (Ok 1, w1) ->
      Redis.expire now (ratelimit_key req) (Qmake windowMs 1000) w1
      = (Throw e, w2) ->
      rateLimiter limit windowMs now req w
      = (Ok (Next tt),
         with_log (log w2 ++ [LogError "Rate limiter error:" e]) w2))
  /\ (redis_ready w = false ->
      fst (rateLimiter limit windowMs now req w) = Ok (Next tt)).
Proof.
  split; [|split].
  - intros e w1 Hincr.
    unfold rateLimiter, try_catch, bind. by rewrite Hincr.
  - intros e w1 w2 Hincr Hexp.
    unfold rateLimiter, try_catch, bind. rewrite Hincr. simpl.
    by rewrite Hexp.
  - intros Hclosed.
    unfold rateLimiter, try_catch, bind, Redis.incr.
    by rewrite command_closed.
Qed.

(** ** Inventory *)

(** C10.  Whenever [updateInventory] returns a product, that product is
    the stored one with the quantity changed by the operation, and its
    status is 'out_of_stock' exactly when its quantity is at most 0: a
    quantity that is at most 0 forces 'out_of_stock' whatever the status
    was, and an 'out_of_stock' product whose quantity is positive becomes
    'active'.  For an existing product the call does return, as long as
    the store is reachable and the schema accepts the two status
    changes. *)
Theorem inventory_status_invariant (product_valid : Product.t -> bool)
    (now : Z) (productId : ObjectId) (quantity : Z) (operation : Operation)
    (w : World) :
  (forall p w',
      updateInventory product_valid now productId quantity operation w
      = (Ok (Some p), w') ->
      (Product.status p = "out_of_stock" <-> Product.quantity p <= 0)
      /\ exists p0,
           List.find (fun x => bool_decide (Product._id x = productId))
             (products w) = Some p0
           /\ Product.quantity p
              = Product.quantity p0 + stock_delta operation quantity
           /\ Product.status p
              = stock_status (Product.quantity p) (Product.status p0))
  /\ (forall p0,
      List.find (fun x => bool_decide (Product._id x = productId))
        (products w) = Some p0 ->
      redis_ready w = true ->
      (forall s, product_valid
                   (set_status s
                      (inc_quantity (stock_delta operation quantity) p0))
                 = true) ->
      exists p w',
        updateInventory product_valid now productId quantity operation w
        = (Ok (Some p), w')).
Proof.
  split.
  - intros p w' Hrun. unfold updateInventory in Hrun.
    apply try_catch_ok in Hrun as [Hbody|(e & w1 & _ & Hhandler)].
    2: { apply bind_ok in Hhandler as (? & ? & _ & Hthrow). done. }
    apply bind_ok in Hbody as (found & w1 & Hfind & Hrest).
    fold (stock_delta operation quantity) in Hfind.
    unfold findByIdAndUpdate_inc in Hfind. injection Hfind as <- _.
    destruct (List.find _ (products w)) as [p0|] eqn:Hp0; simpl in Hrest.
    2: { done. }
    set (p1 := inc_quantity (stock_delta operation quantity) p0) in *.
    apply bind_ok in Hrest as (p2 & w2 & Hstatus & Htail).
    apply bind_ok in Htail as (? & w3 & _ & Htail).
    apply bind_ok in Htail as (? & w4 & _ & Htail).
    injection Htail as <- _.
    assert (Hp2 : Product.quantity p2 = Product.quantity p1
                  /\ Product.status p2
                     = stock_status (Product.quantity p1) (Product.status p0)).
    { unfold stock_status. simpl in *.
      repeat case_bool_decide; simpl in Hstatus;
        try (apply bind_ok in Hstatus as (? & ? & _ & Hstatus));
        injection Hstatus as <- _; simpl; split; (done || lia). }
    destruct Hp2 as [Hq Hs]. split.
    + rewrite Hs, Hq. unfold stock_status.
      repeat case_bool_decide; split; (done || lia || congruence).
    + exists p0. rewrite Hq. done.
  - intros p0 Hfind Hready Hvalid.
    unfold updateInventory, try_catch, bind, findByIdAndUpdate_inc.
    simpl. rewrite Hfind. simpl.
    fold (stock_delta operation quantity).
    unfold product_save, Redis.del, Redis.command, publishMessage, ret.
    rewrite !Hvalid.
    repeat (case_bool_decide; simpl); rewrite ?Hready; simpl; eauto.
Qed.

(** ** Logout and the blacklist *)

(** The middleware reads the store and writes only the log. *)
Lemma authenticate_redis env now authorization w :
  redis (snd (authenticate env now authorization w)) = redis w.
Proof.
  unfold authenticate, try_catch, bind.
  destruct authorization as [[tok|text]|]; simpl; try done.
  destruct (jwt_verify env now tok w) as [[claims|e] w1] eqn:Hv;
    pose proof (jwt_verify_world env now tok w) as Hw1; rewrite Hv in Hw1;
    simpl in Hw1; subst w1.
  2: { by case_bool_decide. }
  destruct (Redis.get now (KBlacklist tok) w) as [[v|e] w1] eqn:Hg;
    pose proof (get_world now (KBlacklist tok) w) as Hw1; rewrite Hg in Hw1;
    simpl in Hw1; subst w1.
  - by destruct (value_truthy v).
  - by case_bool_decide.
Qed.

(** The only key that [logout] touches is the subject's refresh key. *)
Lemma logout_redis now user w k :
  (forall id, k <> KRefresh id) ->
  redis (snd (logout now user w)) !! k = redis w !! k.
Proof.
  intros Hk. unfold logout, try_catch, bind, Redis.del, Redis.command.
  destruct user as [claims|]; simpl; [|done].
  destruct (redis_ready w); simpl; [|done].
  by rewrite lookup_delete_ne.
Qed.

(** C1, on the code.  No blacklist entry is ever written by [logout]:
    behind the [authenticate] middleware it leaves every blacklist key of
    the store as it was.  So the access token that Alice got at login
    and presented at logout is still let through by [authenticate]
    afterwards. *)
Theorem logout_does_not_blacklist :
  (forall env now authorization token w,
      redis (snd (protected env (logout now) now authorization w))
        !! KBlacklist token
      = redis w !! KBlacklist token)
  /\ issued_access <$> reply (login None 10000 alice_login verified_world)
     = Some (Some (alice_access 10000))
  /\ fst (protected None (logout 20000) 20000
            (Some (Bearer (alice_access 10000))) logged_in_world)
     = Ok logged_out
  /\ fst (authenticate None 30000 (Some (Bearer (alice_access 10000)))
            logged_out_world)
     = Ok (Next alice_claims).
Proof.
  split; [|by vm_compute].
  intros env now authorization token w.
  unfold protected, bind.
  pose proof (authenticate_redis env now authorization w) as Hauth.
  destruct (authenticate env now authorization w) as [[[r|claims]|e] w1];
    simpl in *; try by rewrite Hauth.
  rewrite logout_redis by done. by rewrite Hauth.
Qed.

(** ** Worked examples *)

Lemma login_rejections_witness :
  (login None 7000 bob_login registered_world
   = (Ok (Http.fail 401 "Invalid credentials"), registered_world)
   /\ login None 7000 alice_wrong_password registered_world
      = (Ok (Http.fail 401 "Invalid credentials"), registered_world)
   /\ fst (login None 7000 bob_login registered_world)
      = fst (login None 7000 alice_wrong_password registered_world))
  /\ login None 7000 alice_login registered_world
     = (Ok (Http.fail 403 "Please verify your email first"), registered_world).
Proof.
  destruct (login_rejections None 7000 registered_world) as [Hsame Hgate].
  split.
  - apply (Hsame bob_login alice_wrong_password
             (registered_user empty_world alice)); vm_compute; reflexivity.
  - apply (Hgate alice_login (registered_user empty_world alice));
      vm_compute; reflexivity.
Defined.

Lemma refresh_does_not_rotate_witness :
  (exists access,
      Http.data (refreshed None 15000 alice_record)
      = Http.Access access JWT_EXPIRES_IN)
  /\ issued_refresh (refreshed None 15000 alice_record) = None
  /\ redis logged_in_world = redis logged_in_world
  /\ logged_in_world = logged_in_world.
Proof.
  apply (refresh_does_not_rotate None 15000 (Some (alice_refresh 10000))
           logged_in_world logged_in_world (refreshed None 15000 alice_record)).
  - vm_compute. reflexivity.
  - reflexivity.
Defined.

Lemma refresh_user_not_found_witness :
  refreshToken None 15000 (Some (alice_refresh 10000)) orphaned_world
  = (Ok (Http.fail 404 "User not found"), orphaned_world)
  /\ Http.data (Http.fail 404 "User not found") = Http.NoData.
Proof.
  apply (refresh_user_not_found None 15000 (alice_refresh 10000)
           {| Jwt.userId := alice_id; Jwt.email := None; Jwt.role := None |}
           orphaned_world); vm_compute; reflexivity.
Defined.

Lemma refresh_only_stored_token_witness :
  (exists tok claims,
      Some (alice_refresh 10000) = Some tok
      /\ fst (jwt_verify None 15000 tok logged_in_world) = Ok claims
      /\ fst (Redis.get 15000 (KRefresh (Jwt.userId claims)) logged_in_world)
         = Ok (Some (VString tok)))
  /\ fst (refreshToken None 25000 (Some (alice_refresh 10000)) relogged_later)
     = Ok (Http.fail 401 "Invalid refresh token").
Proof.
  destruct (refresh_only_stored_token None) as [Honly Hstale].
  split.
  - apply (Honly 15000 (Some (alice_refresh 10000)) logged_in_world
             (refreshed None 15000 alice_record) logged_in_world).
    + vm_compute. reflexivity.
    + reflexivity.
  - apply (Hstale verified_world 10000 20000 25000 alice_login alice_login
             (let (r, _) := login None 10000 alice_login verified_world in
              match r with Ok r => r | Throw _ => logged_out end)
             (let (r, _) := login None 20000 alice_login logged_in_world in
              match r with Ok r => r | Throw _ => logged_out end)
             logged_in_world relogged_later
             (alice_refresh 10000) (alice_refresh 20000)).
    + vm_compute. reflexivity.
    + vm_compute. reflexivity.
    + reflexivity.
    + vm_compute. reflexivity.
    + vm_compute. reflexivity.
    + vm_compute. discriminate.
Defined.

(** The first login's refresh token is still honoured after a second
    login in the same clock second: the two logins sign the same string. *)
Lemma stale_refresh_within_one_second :
  issued_refresh <$> reply (login None 10000 alice_login verified_world)
  = Some (Some (alice_refresh 10000))
  /\ Http.status <$> reply (login None 10400 alice_login logged_in_world)
     = Some 200
  /\ Http.status
       <$> reply (refreshToken None 12000 (Some (alice_refresh 10000))
                    relogged_same_second)
     = Some 200
  /\ fst (refreshToken None 12000 (Some (alice_refresh 10000))
            relogged_same_second)
     <> Ok (Http.fail 401 "Invalid refresh token").
Proof. repeat split; vm_compute; (reflexivity || discriminate). Qed.

Lemma verify_email_single_use_witness :
  (verifyEmail None 5000 (Some alice_verification) registered_world
   = (Ok verified, after_verification alice_id registered_world)
   /\ fst (User.findById alice_id (after_verification alice_id registered_world))
      = Ok (Some alice_record)
   /\ redis (after_verification alice_id registered_world) !! KVerify alice_id
      = None
   /\ fst (verifyEmail None 6000 (Some alice_verification)
             (after_verification alice_id registered_world))
      = Ok (Http.fail 400 "Invalid or expired verification token"))
  /\ fst (verifyEmail None 5000 (Some (alice_access 0)) registered_world)
     = Ok (Http.fail 400 "Invalid or expired verification token").
Proof.
  destruct (verify_email_single_use None) as [Honce Hmismatch].
  split.
  - destruct (Honce 5000 alice_verification
                {| Jwt.userId := alice_id;
                   Jwt.email := Some "alice@example.com"; Jwt.role := None |}
                registered_world)
      as (Hrun & Huser & Hgone & Hagain);
      [vm_compute; reflexivity | vm_compute; reflexivity |].
    split; [exact Hrun|]. split; [|split; [exact Hgone | exact (Hagain 6000)]].
    apply (Huser (registered_user empty_world alice)).
    vm_compute. reflexivity.
  - apply (Hmismatch 5000 (alice_access 0) registered_world).
    + reflexivity.
    + intros claims Hv. vm_compute in Hv. injection Hv as <-.
      vm_compute. discriminate.
Defined.

Lemma register_conflict_or_created_witness :
  register None 9000 alice registered_world
  = (Ok (Http.fail 400 "User already exists"), registered_world)
  /\ exists r w',
       register None 0 bob empty_world = (Ok r, w')
       /\ Http.status r = 201
       /\ Http.data r
          = Http.Session
              {| Http.id := 1%N; Http.email := "bob@example.com";
                 Http.firstName := "Bob"; Http.lastName := "Stone";
                 Http.role := "customer" |}
              {| Http.accessToken :=
                   Jwt.Signed
                     {| Jwt.userId := 1%N;
                        Jwt.email := Some "bob@example.com";
                        Jwt.role := Some "customer" |}
                     0 (7 * 86400) "your-secret-key";
                 Http.refreshToken :=
                   Jwt.Signed
                     {| Jwt.userId := 1%N; Jwt.email := None;
                        Jwt.role := None |}
                     0 (30 * 86400) "your-secret-key";
                 Http.expiresIn := Days 7 |}
       /\ users w'
          = [{| _id := 1%N; email := "bob@example.com";
                password := Bcrypt 10 "hunter2hunter2";
                firstName := "Bob"; lastName := "Stone";
                phoneNumber := Some "555 0100";
                isEmailVerified := false; role := "customer" |}]
       /\ redis w'
          = <[KRefresh 1%N :=
                {| value :=
                     VString
                       (Jwt.Signed
                          {| Jwt.userId := 1%N; Jwt.email := None;
                             Jwt.role := None |}
                          0 (30 * 86400) "your-secret-key");
                   expires_at := Some (30 * 86400 * 1000) |}]>
              (<[KVerify 1%N :=
                   {| value :=
                        VString
                          (Jwt.Signed
                             {| Jwt.userId := 1%N;
                                Jwt.email := Some "bob@example.com";
                                Jwt.role := None |}
                             0 86400 "your-secret-key");
                      expires_at := Some (86400 * 1000) |}]> ∅).
Proof.
  split.
  - apply (proj1 (register_conflict_or_created None 9000 alice registered_world)
             (registered_user empty_world alice)).
    vm_compute. reflexivity.
  - apply (proj2 (register_conflict_or_created None 0 bob empty_world)).
    + reflexivity.
    + reflexivity.
    + reflexivity.
    + discriminate.
    + vm_compute. lia.
    + discriminate.
    + discriminate.
Defined.

Lemma rate_limit_fixed_window_witness :
  exists w',
    hits 3 60000 client [0; 1000; 2000; 3000] empty_world
    = ([Ok (Next tt); Ok (Next tt); Ok (Next tt); Ok (Reply throttled)], w')
    /\ redis w' !! ratelimit_key client
       = Some {| value := VCounter 4; expires_at := Some 60000 |}.
Proof.
  apply (proj1 rate_limit_fixed_window 3 60 client 0 [1000; 2000; 3000]
           empty_world).
  - lia.
  - reflexivity.
  - reflexivity.
  - repeat constructor; lia.
Defined.

Lemma rate_limiter_fails_open_witness :
  rateLimiter 3 60000 0 client offline_world
  = (Ok (Next tt),
     with_log [LogError "Rate limiter error:" Redis.closed] offline_world)
  /\ fst (rateLimiter 3 1500 0 client empty_world) = Ok (Next tt)
  /\ fst (rateLimiter 3 60000 0 client offline_world) = Ok (Next tt).
Proof.
  destruct (rate_limiter_fails_open 3 60000 0 client offline_world)
    as (Hincr & _ & Hclosed).
  destruct (rate_limiter_fails_open 3 1500 0 client empty_world)
    as (_ & Hexpire & _).
  split; [|split].
  - apply (Hincr Redis.closed offline_world). reflexivity.
  - erewrite Hexpire; [reflexivity | vm_compute; reflexivity
                       | vm_compute; reflexivity].
  - apply Hclosed. reflexivity.
Defined.

Lemma inventory_status_invariant_witness :
  (Product.status (set_status "out_of_stock" (inc_quantity (-2) widget))
   = "out_of_stock"
   <-> Product.quantity (set_status "out_of_stock" (inc_quantity (-2) widget))
       <= 0)
  /\ exists p w',
       updateInventory (fun _ => true) 0 7%N 2 subtract shop = (Ok (Some p), w').
Proof.
  destruct (inventory_status_invariant (fun _ => true) 0 7%N 2 subtract shop)
    as [Hinv Hreturns].
  split.
  - apply (Hinv (set_status "out_of_stock" (inc_quantity (-2) widget))
             (snd (updateInventory (fun _ => true) 0 7%N 2 subtract shop))).
    vm_compute. reflexivity.
  - apply (Hreturns widget); reflexivity.
Defined.

(** * Further properties of the code *)

(** ** The token check of the auth service *)

(** The middleware always answers or hands on: every exception is turned
    into a 401. *)
Lemma authenticate_total env now authorization w :
  exists o, fst (authenticate env now authorization w) = Ok o.
Proof.
  unfold authenticate, try_catch, bind.
  destruct authorization as [[tok|text]|]; simpl; eauto.
  destruct (jwt_verify env now tok w) as [[claims|e] w1]; simpl.
  - destruct (Redis.get now (KBlacklist tok) w1) as [[v|e] w2]; simpl.
    + destruct (value_truthy v); simpl; eauto.
    + case_bool_decide; simpl; eauto.
  - case_bool_decide; simpl; eauto.
Qed.

(** Whatever [authenticate] answers itself is a 401. *)
Lemma authenticate_reply_401 env now authorization w r :
  fst (authenticate env now authorization w) = Ok (Reply r) ->
  Http.status r = 401.
Proof.
  unfold authenticate, try_catch, bind.
  destruct authorization as [[tok|text]|]; simpl; try by intros [= <-].
  destruct (jwt_verify env now tok w) as [[c|e] w1]; simpl.
  - destruct (Redis.get now (KBlacklist tok) w1) as [[v|e] w2]; simpl.
    + destruct (value_truthy v); simpl; [by intros [= <-]|done].
    + case_bool_decide; by intros [= <-].
  - case_bool_decide; by intros [= <-].
Qed.

(** What a request that got past [authenticate] went through. *)
Lemma authenticate_next env now authorization w claims :
  fst (authenticate env now authorization w) = Ok (Next claims) ->
  exists tok,
    authorization = Some (Bearer tok)
    /\ Jwt.verify tok (JWT_SECRET env) now = inr claims
    /\ redis_ready w = true
    /\ value_truthy (value <$> Redis.peek now (KBlacklist tok) (redis w))
       = false
    /\ snd (authenticate env now authorization w) = w.
Proof.
  unfold authenticate, try_catch, bind.
  destruct authorization as [[tok|text]|]; simpl; try done.
  destruct (Jwt.verify tok (JWT_SECRET env) now) as [e|c] eqn:Hv.
  { rewrite (jwt_verify_inl _ _ _ _ _ Hv). simpl.
    case_bool_decide; done. }
  rewrite (jwt_verify_inr _ _ _ _ _ Hv).
  destruct (redis_ready w) eqn:Hready.
  2: { unfold Redis.get. rewrite command_closed by done. simpl. done. }
  rewrite get_ready by done.
  destruct (value_truthy _) eqn:Hbl; simpl; [done|].
  intros [= <-]. exists tok. done.
Qed.

(** A bearer token that verifies and is not blacklisted gets through. *)
Lemma authenticate_pass env now tok w claims :
  Jwt.verify tok (JWT_SECRET env) now = inr claims ->
  redis_ready w = true ->
  value_truthy (value <$> Redis.peek now (KBlacklist tok) (redis w)) = false ->
  authenticate env now (Some (Bearer tok)) w = (Ok (Next claims), w).
Proof.
  intros Hv Hready Hbl.
  unfold authenticate, try_catch, bind.
  rewrite (jwt_verify_inr _ _ _ _ _ Hv), get_ready by done.
  by rewrite Hbl.
Qed.

(** X1.  [authenticate] hands a request on exactly when its header is
    ['Bearer ' + token], the token verifies under the secret and has not
    expired, the store answers, and the store holds no non-empty value under
    the token's blacklist key; the request then carries the token's
    claims, and the world is left as it was. *)
Theorem authenticate_passes_iff (env : option string) (now : Z)
    (authorization : option Authorization) (w : World) (claims : Jwt.Claims) :
  fst (authenticate env now authorization w) = Ok (Next claims)
  <-> exists tok,
        authorization = Some (Bearer tok)
        /\ Jwt.verify tok (JWT_SECRET env) now = inr claims
        /\ redis_ready w = true
        /\ value_truthy (value <$> Redis.peek now (KBlacklist tok) (redis w))
           = false
        /\ snd (authenticate env now authorization w) = w.
Proof.
  split.
  - apply authenticate_next.
  - intros (tok & -> & Hv & Hready & Hbl & _).
    by rewrite (authenticate_pass _ _ _ _ _ Hv Hready Hbl).
Qed.

Lemma authenticate_passes_iff_witness :
  fst (authenticate None 30000 (Some (Bearer (alice_access 10000)))
         logged_in_world)
  = Ok (Next alice_claims).
Proof.
  apply (authenticate_passes_iff None 30000
           (Some (Bearer (alice_access 10000))) logged_in_world alice_claims).
  exists (alice_access 10000). vm_compute. done.
Defined.

(** X2.  [authenticate] fails closed: while the store client is closed no
    request gets past it, whatever the header; each is answered 401. *)
Theorem authenticate_fails_closed (env : option string) (now : Z)
    (authorization : option Authorization) (w : World) :
  redis_ready w = false ->
  exists r,
    fst (authenticate env now authorization w) = Ok (Reply r)
    /\ Http.status r = 401.
Proof.
  intros Hclosed.
  destruct (authenticate_total env now authorization w) as [[r|claims] Ho].
  - exists r. split; [done|]. by eapply authenticate_reply_401.
  - apply authenticate_next in Ho as (tok & _ & _ & Hready & _).
    congruence.
Qed.

Lemma authenticate_fails_closed_witness :
  exists r,
    fst (authenticate None 0 (Some (Bearer (alice_access 0))) offline_world)
    = Ok (Reply r)
    /\ Http.status r = 401.
Proof.
  apply (authenticate_fails_closed None 0 (Some (Bearer (alice_access 0)))
           offline_world).
  reflexivity.
Defined.

(** ** The role check *)

(** X3.  Behind [authenticate, authorize(...roles)] a handler runs only
    on a request whose token carries a role listed in [roles], and it is
    given exactly the token's claims; every other request is answered 401
    or 403 without the handler being run. *)
Theorem restricted_runs_only_listed_roles (env : option string)
    (roles : list string) (handler : option Jwt.Claims -> M Http.Response)
    (now : Z) (authorization : option Authorization) (w : World) :
  (exists claims r,
      fst (authenticate env now authorization w) = Ok (Next claims)
      /\ Jwt.role claims = Some r
      /\ r ∈ roles
      /\ restricted env roles handler now authorization w
         = handler (Some claims) w)
  \/ (exists r,
        restricted env roles handler now authorization w
        = (Ok r, snd (authenticate env now authorization w))
        /\ (Http.status r = 401 \/ Http.status r = 403)).
Proof.
  destruct (authenticate_total env now authorization w) as [[r|claims] Ho].
  - right. exists r. unfold restricted, bind.
    destruct (authenticate env now authorization w) as [res w1] eqn:Hrun.
    simpl in Ho. subst res. simpl. split; [done|]. left.
    apply (authenticate_reply_401 env now authorization w). by rewrite Hrun.
  - pose proof Ho as Hpass.
    apply authenticate_next in Hpass as (tok & _ & _ & _ & _ & Hw).
    unfold restricted, bind.
    destruct (authenticate env now authorization w) as [res w1] eqn:Hrun.
    simpl in Ho, Hw. subst res w1. simpl.
    destruct (Jwt.role claims) as [r|] eqn:Hrole; simpl.
    + case_bool_decide as Hin; simpl.
      * left. exists claims, r. done.
      * right. eexists. split; [done|]. by right.
    + right. eexists. split; [done|]. by right.
Qed.

(** X4.  [authorize] never lets through a request without a role claim:
    whatever roles a route lists, a token that carries no role (a refresh
    or verification token) is answered 403, and a request that
    [authenticate] did not decorate is answered 401. *)
Theorem authorize_needs_role (roles : list string) :
  authorize roles None = Reply (Http.fail 401 "Unauthorized")
  /\ (forall claims,
        Jwt.role claims = None ->
        authorize roles (Some claims)
        = Reply (Http.fail 403 "Forbidden: Insufficient permissions"))
  /\ (forall claims,
        (exists r, Jwt.role claims = Some r /\ r ∈ roles)
        <-> authorize roles (Some claims) = Next claims).
Proof.
  split; [done|]. split.
  - intros claims Hrole. unfold authorize. by rewrite Hrole.
  - intros claims. unfold authorize. split.
    + intros (r & -> & Hin). by rewrite bool_decide_eq_true_2.
    + destruct (Jwt.role claims) as [r|]; simpl; [|done].
      case_bool_decide; simpl; [|done]. eauto.
Qed.

Lemma authorize_needs_role_witness :
  authorize ["admin"]
    (Some {| Jwt.userId := alice_id; Jwt.email := None; Jwt.role := None |})
  = Reply (Http.fail 403 "Forbidden: Insufficient permissions")
  /\ authorize ["admin"; "customer"] (Some alice_claims) = Next alice_claims.
Proof.
  destruct (authorize_needs_role ["admin"]) as (_ & Hnone & _).
  destruct (authorize_needs_role ["admin"; "customer"]) as (_ & _ & Hsome).
  split.
  - apply Hnone. reflexivity.
  - apply (proj1 (Hsome alice_claims)).
    exists "customer". split; [reflexivity|]. repeat constructor.
Defined.

(** ** Sessions: login, refresh, logout *)

(** A clock second before the expiry second is no later than the expiry
    instant counted in milliseconds from [t]. *)
Lemma timestamp_before now t span :
  Jwt.timestamp now < Jwt.timestamp t + span -> now <= t + span * 1000.
Proof.
  unfold Jwt.timestamp. intros H.
  pose proof (Z.div_mod now 1000). pose proof (Z.mod_pos_bound now 1000).
  pose proof (Z.div_mod t 1000). pose proof (Z.mod_pos_bound t 1000).
  lia.
Qed.

(** A token verifies under the key it was signed with until its expiry
    second. *)
Lemma verify_sign payload secret span t now :
  Jwt.verify (Jwt.sign payload secret span t) secret now
  = if bool_decide (Jwt.timestamp t + span_seconds span <= Jwt.timestamp now)
    then inl Jwt.TokenExpiredError else inr payload.
Proof. simpl. by rewrite bool_decide_eq_true_2. Qed.

Lemma peek_insert_live now k e store :
  live now e = true -> Redis.peek now k (<[k := e]> store) = Some e.
Proof. intros H. by rewrite peek_insert, H. Qed.

Lemma peek_insert_ne now k k' e store :
  k <> k' -> Redis.peek now k' (<[k := e]> store) = Redis.peek now k' store.
Proof. intros H. unfold Redis.peek. by rewrite lookup_insert_ne. Qed.

(** A document found by one query is found by any query it matches. *)
Lemma lookup_some_other (p q : IUser -> bool) us u :
  User.lookup p us = Some u -> q u = true ->
  exists u', User.lookup q us = Some u' /\ q u' = true.
Proof.
  unfold User.lookup. intros Hp Hq.
  apply find_some in Hp as [Hin _].
  destruct (List.find q us) as [u'|] eqn:Hfind.
  - exists u'. split; [done|]. by apply find_some in Hfind as [_ ?].
  - pose proof (find_none _ _ Hfind u Hin). congruence.
Qed.

(** X5.  The refresh token handed out by a login at [t] is honoured by
    [refreshToken] on the world the login left exactly until the clock
    second [t/1000 + 30 days]: the token's own expiry decides, the
    30-day lifetime of the stored copy never ends earlier.  The access
    token of the 200 reply verifies under the secret for the same
    subject. *)
Theorem refresh_after_login_window (env : option string) (t now : Z)
    (body : LoginBody) (w w' : World) (r : Http.Response) (rt : Jwt.Token) :
  login env t body w = (Ok r, w') ->
  issued_refresh r = Some rt ->
  (Http.status <$> reply (refreshToken env now (Some rt) w') = Some 200
   <-> Jwt.timestamp now < Jwt.timestamp t + 30 * 86400)
  /\ (forall r',
        fst (refreshToken env now (Some rt) w') = Ok r' ->
        Http.status r' = 200 ->
        exists access claims claims',
          Http.data r' = Http.Access access JWT_EXPIRES_IN
          /\ Jwt.verify access (JWT_SECRET env) now = inr claims
          /\ Jwt.verify rt (JWT_SECRET env) now = inr claims'
          /\ Jwt.userId claims = Jwt.userId claims').
Proof.
  intros Hlogin Hrt.
  destruct (login_issues _ _ _ _ _ _ _ Hlogin Hrt) as (u & Hu & -> & Hready & ->).
  split; [split|].
  - unfold reply.
    destruct (refreshToken env now _ _) as [[r'|e] w''] eqn:Hrun; simpl;
      [|done].
    intros [= H200].
    destruct (refreshToken_200 _ _ _ _ _ _ Hrun H200)
      as (tok & claims & _ & [= <-] & Hv & _).
    rewrite verify_sign in Hv. case_bool_decide; [done|]. simpl in *. lia.
  - intros Hnow.
    assert (Hv : Jwt.verify
                   (Jwt.sign (refresh_claims u) (JWT_SECRET env)
                      REFRESH_TOKEN_EXPIRES_IN t) (JWT_SECRET env) now
                 = inr (refresh_claims u)).
    { rewrite verify_sign. rewrite bool_decide_eq_false_2; [done|].
      simpl. lia. }
    destruct (lookup_some_other _ (fun v => bool_decide (_id v = _id u)) _ _ Hu)
      as (u' & Hu' & _); [by apply bool_decide_eq_true_2|].
    unfold reply, refreshToken, try_catch, bind.
    change (Jwt.truthy (Some (Jwt.sign (refresh_claims u) (JWT_SECRET env)
                                REFRESH_TOKEN_EXPIRES_IN t))) with true.
    cbv beta iota. unfold negb, default.
    rewrite (jwt_verify_inr _ _ _ _ _ Hv).
    rewrite get_ready by done.
    cbn [redis with_redis Jwt.userId refresh_claims].
    rewrite peek_insert_live.
    2: { apply bool_decide_eq_true_2.
         apply (timestamp_before now t (30 * 86400)) in Hnow. lia. }
    simpl. rewrite bool_decide_eq_true_2 by done. simpl.
    unfold User.findById. simpl. rewrite Hu'. done.
  - intros r' Hrun H200.
    destruct (refreshToken env now _ _) as [res w''] eqn:Hrun'.
    simpl in Hrun. subst res.
    destruct (refreshToken_200 _ _ _ _ _ _ Hrun' H200)
      as (tok & claims & u' & [= <-] & Hv & _ & _ & Hu' & -> & _).
    exists (Jwt.sign (access_claims u') (JWT_SECRET env) JWT_EXPIRES_IN now),
      (access_claims u'), claims.
    split; [done|]. split; [|split; [done|]].
    + rewrite verify_sign. rewrite bool_decide_eq_false_2; [done|].
      simpl. lia.
    + unfold User.lookup in Hu'. apply find_some in Hu' as [_ Hid].
      apply bool_decide_eq_true_1 in Hid. done.
Qed.

Lemma refresh_after_login_window_witness :
  (Http.status
     <$> reply (refreshToken None 15000 (Some (alice_refresh 10000))
                  logged_in_world)
   = Some 200
   <-> Jwt.timestamp 15000 < Jwt.timestamp 10000 + 30 * 86400)
  /\ (forall r',
        fst (refreshToken None 15000 (Some (alice_refresh 10000))
               logged_in_world) = Ok r' ->
        Http.status r' = 200 ->
        exists access claims claims',
          Http.data r' = Http.Access access JWT_EXPIRES_IN
          /\ Jwt.verify access (JWT_SECRET None) 15000 = inr claims
          /\ Jwt.verify (alice_refresh 10000) (JWT_SECRET None) 15000
             = inr claims'
          /\ Jwt.userId claims = Jwt.userId claims').
Proof.
  apply (refresh_after_login_window None 10000 15000 alice_login verified_world
           logged_in_world
           (match fst (login None 10000 alice_login verified_world) with
            | Ok r => r
            | Throw _ => logged_out
            end)
           (alice_refresh 10000)); vm_compute; reflexivity.
Defined.

(** Every 200 of [login] found the user by e-mail, checked the password
    and the verification flag, and stored the new refresh token. *)
Lemma login_200 env now body w r w' :
  login env now body w = (Ok r, w') ->
  Http.status r = 200 ->
  exists u rounds,
    User.lookup
      (fun v => bool_decide (email v = User.email_setters (login_email body)))
      (users w)
    = Some u
    /\ password u = Bcrypt rounds (login_password body)
    /\ isEmailVerified u = true
    /\ redis_ready w = true
    /\ r = login_session env now u
    /\ w' = with_redis
              (store_refresh now u
                 (Jwt.sign (refresh_claims u) (JWT_SECRET env)
                    REFRESH_TOKEN_EXPIRES_IN now) (redis w)) w.
Proof.
  unfold login, try_catch, bind, User.findOne, User.comparePassword, ret.
  simpl.
  destruct (User.lookup _ (users w)) as [u|] eqn:Hu; simpl.
  2: { intros [= <- <-]. done. }
  destruct (password u) as [p|n p] eqn:Hp; simpl.
  { intros [= <- <-]. done. }
  case_bool_decide as Hpw; simpl.
  2: { intros [= <- <-]. done. }
  destruct (isEmailVerified u) eqn:Hver; simpl.
  2: { intros [= <- <-]. done. }
  unfold Redis.setEx, Redis.command.
  destruct (redis_ready w) eqn:Hready; simpl.
  2: { intros [= <- <-]. done. }
  intros [= <- <-] _. exists u, n. subst p. done.
Qed.

(** A matching password on a verified account logs in. *)
Lemma login_ok env now body w u rounds :
  User.lookup
      (fun v => bool_decide (email v = User.email_setters (login_email body)))
      (users w)
  = Some u ->
  password u = Bcrypt rounds (login_password body) ->
  isEmailVerified u = true ->
  redis_ready w = true ->
  login env now body w
  = (Ok (login_session env now u),
     with_redis
       (store_refresh now u
          (Jwt.sign (refresh_claims u) (JWT_SECRET env)
             REFRESH_TOKEN_EXPIRES_IN now) (redis w)) w).
Proof.
  intros Hu Hp Hver Hready.
  unfold login, try_catch, bind, User.findOne, User.comparePassword, ret.
  simpl. rewrite Hu. simpl. rewrite Hp. simpl.
  rewrite bool_decide_eq_true_2 by done. simpl. rewrite Hver. simpl.
  unfold Redis.setEx, Redis.command. rewrite Hready. done.
Qed.

(** X6.  Both tokens of a login are bearer credentials.  On the world the
    login left, with no blacklist entry for them, [authenticate] lets the
    access token through exactly until the clock second [t/1000 + 7 days],
    and lets the refresh token through as well, exactly until
    [t/1000 + 30 days]: the token kind is not checked.  The refresh token
    carries no role, so every [authorize] answers it 403. *)
Theorem login_tokens_as_bearer (env : option string) (t now : Z)
    (body : LoginBody) (w w' : World) (r : Http.Response)
    (access rt : Jwt.Token) :
  login env t body w = (Ok r, w') ->
  issued_access r = Some access ->
  issued_refresh r = Some rt ->
  redis w' !! KBlacklist access = None ->
  redis w' !! KBlacklist rt = None ->
  exists u,
    fst (User.findOne (login_email body) w) = Ok (Some u)
    /\ (fst (authenticate env now (Some (Bearer access)) w')
        = Ok (Next (access_claims u))
        <-> Jwt.timestamp now < Jwt.timestamp t + 7 * 86400)
    /\ (fst (authenticate env now (Some (Bearer rt)) w')
        = Ok (Next (refresh_claims u))
        <-> Jwt.timestamp now < Jwt.timestamp t + 30 * 86400)
    /\ forall roles,
         authorize roles (Some (refresh_claims u))
         = Reply (Http.fail 403 "Forbidden: Insufficient permissions").
Proof.
  intros Hlogin Haccess Hrt Hbl_a Hbl_r.
  assert (H200 : Http.status r = 200).
  { revert Hlogin Hrt.
    unfold login, try_catch, bind, User.findOne, User.comparePassword, ret.
    simpl. repeat case_match; intros; simplify_eq/=; done. }
  destruct (login_200 _ _ _ _ _ _ Hlogin H200)
    as (u & rounds & Hu & _ & _ & Hready & -> & ->).
  injection Haccess as <-. injection Hrt as <-.
  exists u. split; [unfold User.findOne; cbn [fst]; by rewrite Hu|].
  assert (Hwindow : forall payload span,
    0 < span_seconds span ->
    redis w !! KBlacklist (Jwt.sign payload (JWT_SECRET env) span t) = None ->
    fst (authenticate env now
           (Some (Bearer (Jwt.sign payload (JWT_SECRET env) span t)))
           (with_redis
              (store_refresh t u
                 (Jwt.sign (refresh_claims u) (JWT_SECRET env)
                    REFRESH_TOKEN_EXPIRES_IN t) (redis w)) w))
    = Ok (Next payload)
    <-> Jwt.timestamp now < Jwt.timestamp t + span_seconds span).
  { intros payload span Hspan Hbl. split.
    - intros Hpass.
      apply authenticate_next in Hpass as (tok & [= <-] & Hv & _).
      rewrite verify_sign in Hv. case_bool_decide; [done|]. lia.
    - intros Hnow. rewrite authenticate_pass with (claims := payload); try done.
      + rewrite verify_sign. rewrite bool_decide_eq_false_2; [done|]. lia.
      + unfold Redis.peek, store_refresh. simpl.
        rewrite lookup_insert_ne by done. by rewrite Hbl. }
  split; [|split].
  - apply (Hwindow (access_claims u) (Days 7)); [done|].
    simpl in Hbl_a. unfold store_refresh in Hbl_a.
    by rewrite lookup_insert_ne in Hbl_a.
  - apply (Hwindow (refresh_claims u) (Days 30)); [done|].
    simpl in Hbl_r. unfold store_refresh in Hbl_r.
    by rewrite lookup_insert_ne in Hbl_r.
  - intros roles. done.
Qed.

Lemma login_tokens_as_bearer_witness :
  exists u,
    fst (User.findOne (login_email alice_login) verified_world) = Ok (Some u)
    /\ (fst (authenticate None 30000 (Some (Bearer (alice_access 10000)))
               logged_in_world)
        = Ok (Next (access_claims u))
        <-> Jwt.timestamp 30000 < Jwt.timestamp 10000 + 7 * 86400)
    /\ (fst (authenticate None 30000 (Some (Bearer (alice_refresh 10000)))
               logged_in_world)
        = Ok (Next (refresh_claims u))
        <-> Jwt.timestamp 30000 < Jwt.timestamp 10000 + 30 * 86400)
    /\ forall roles,
         authorize roles (Some (refresh_claims u))
         = Reply (Http.fail 403 "Forbidden: Insufficient permissions").
Proof.
  apply (login_tokens_as_bearer None 10000 30000 alice_login verified_world
           logged_in_world
           (match fst (login None 10000 alice_login verified_world) with
            | Ok r => r
            | Throw _ => logged_out
            end)
           (alice_access 10000) (alice_refresh 10000));
    vm_compute; reflexivity.
Defined.

(** What a successful logout did. *)
Lemma logout_200 now user w r w' :
  logout now user w = (Ok r, w') ->
  Http.status r = 200 ->
  exists claims,
    user = Some claims
    /\ redis_ready w = true
    /\ r = logged_out
    /\ w' = with_redis (delete (KRefresh (Jwt.userId claims)) (redis w)) w.
Proof.
  unfold logout, try_catch, bind, Redis.del, Redis.command.
  destruct user as [claims|]; simpl.
  2: { intros [= <- <-]. done. }
  destruct (redis_ready w) eqn:Hready; simpl.
  2: { intros [= <- <-]. done. }
  intros [= <- <-] _. by exists claims.
Qed.

(** X7.  Logout revokes the subject's refresh token and can be repeated.
    After a logout answered 200, every refresh token of that subject is
    answered 401 'Invalid refresh token', at any time and however valid
    its signature and expiry, and a second logout is answered 200 again
    and changes nothing. *)
Theorem logout_revokes_refresh (env : option string) (now : Z)
    (claims : Jwt.Claims) (w w' : World) (r : Http.Response) :
  logout now (Some claims) w = (Ok r, w') ->
  Http.status r = 200 ->
  (forall now' rt claims',
      Jwt.verify rt (JWT_SECRET env) now' = inr claims' ->
      Jwt.userId claims' = Jwt.userId claims ->
      fst (refreshToken env now' (Some rt) w')
      = Ok (Http.fail 401 "Invalid refresh token"))
  /\ (forall now', logout now' (Some claims) w' = (Ok logged_out, w')).
Proof.
  intros Hrun H200.
  destruct (logout_200 _ _ _ _ _ Hrun H200)
    as (c & [= <-] & Hready & -> & ->).
  split.
  - intros now' rt claims' Hv Hid.
    unfold refreshToken, try_catch, bind.
    rewrite (verify_truthy _ _ _ _ Hv). simpl.
    rewrite (jwt_verify_inr _ _ _ _ _ Hv).
    rewrite get_ready by done. simpl. rewrite Hid, peek_delete. done.
  - intros now'.
    unfold logout, try_catch, bind, Redis.del.
    rewrite command_ready by done. cbn [redis with_redis fst snd].
    rewrite delete_delete_eq. done.
Qed.

Lemma logout_revokes_refresh_witness :
  (forall now' rt claims',
      Jwt.verify rt (JWT_SECRET None) now' = inr claims' ->
      Jwt.userId claims' = Jwt.userId alice_claims ->
      fst (refreshToken None now' (Some rt)
             (snd (logout 20000 (Some alice_claims) logged_in_world)))
      = Ok (Http.fail 401 "Invalid refresh token"))
  /\ (forall now',
        logout now' (Some alice_claims)
          (snd (logout 20000 (Some alice_claims) logged_in_world))
        = (Ok logged_out,
           snd (logout 20000 (Some alice_claims) logged_in_world))).
Proof.
  apply (logout_revokes_refresh None 20000 alice_claims logged_in_world
           (snd (logout 20000 (Some alice_claims) logged_in_world))
           logged_out); vm_compute; reflexivity.
Defined.

(** ** Registration and the account life cycle *)

Lemma lookup_app (p : IUser -> bool) us u :
  User.lookup p (us ++ [u])
  = match User.lookup p us with
    | Some v => Some v
    | None => if p u then Some u else None
    end.
Proof.
  unfold User.lookup. induction us as [|v us IH]; simpl; [done|].
  by destruct (p v).
Qed.

(** Every 201 of [register] met a fresh e-mail and an open store, appended
    the new record, unverified, and stored and mailed the tokens. *)
Lemma register_201 env now body w r w' :
  register env now body w = (Ok r, w') ->
  Http.status r = 201 ->
  let u := registered_user w body in
  let vt := Jwt.sign (verification_claims u) (JWT_SECRET env) (Hours 24) now in
  let rt := Jwt.sign (refresh_claims u) (JWT_SECRET env)
              REFRESH_TOKEN_EXPIRES_IN now in
  User.lookup
    (fun v => bool_decide (email v = User.email_setters (reg_email body)))
    (users w) = None
  /\ redis_ready w = true
  /\ (8 <= JsString.length (reg_password body))%nat
  /\ issued_refresh r = Some rt
  /\ issued_access r
     = Some (Jwt.sign (access_claims u) (JWT_SECRET env) JWT_EXPIRES_IN now)
  /\ users w' = (users w ++ [u])%list
  /\ next_oid w' = N.succ (next_oid w)
  /\ redis_ready w' = true
  /\ outbox w' = (outbox w ++ [(email u, vt)])%list
  /\ redis w'
     = store_refresh now u rt
         (<[KVerify (_id u) :=
              {| value := VString vt;
                 expires_at := Some (now + 86400 * 1000) |}]> (redis w)).
Proof.
  unfold register, try_catch, bind, User.findOne, User.new, User.save.
  simpl.
  destruct (User.lookup _ (users w)) as [u0|] eqn:Hfresh; simpl.
  { intros [= <- <-]. done. }
  destruct (User.validate _) eqn:Hvalid; simpl.
  2: { intros [= <- <-]. done. }
  rewrite Hfresh. simpl.
  unfold Redis.setEx, Redis.command, sendVerificationEmail. simpl.
  destruct (redis_ready w) eqn:Hready; simpl.
  2: { intros [= <- <-]. done. }
  rewrite Hready. simpl.
  intros [= <- <-] _. simpl.
  split; [done|]. split; [done|]. split; [|done].
  unfold User.validate in Hvalid. simpl in Hvalid.
  repeat case_bool_decide; simpl in Hvalid; done.
Qed.

(** X8.  The verification gate covers [login] only.  After a
    registration answered 201, and until the address is verified, a login
    with the registered credentials is answered 403; yet the tokens of
    the 201 reply work: the refresh token is honoured by [refreshToken]
    until its expiry, 30 days later, and the access token passes
    [authenticate] when no blacklist entry names it. *)
Theorem unverified_account_keeps_session (env : option string) (t : Z)
    (body : RegisterBody) (w w' : World) (r : Http.Response)
    (access rt : Jwt.Token) :
  register env t body w = (Ok r, w') ->
  Http.status r = 201 ->
  issued_access r = Some access ->
  issued_refresh r = Some rt ->
  (forall now,
      fst (login env now
             {| login_email := reg_email body;
                login_password := reg_password body |} w')
      = Ok (Http.fail 403 "Please verify your email first"))
  /\ (forall now,
        Jwt.timestamp now < Jwt.timestamp t + 30 * 86400 ->
        Http.status <$> reply (refreshToken env now (Some rt) w') = Some 200)
  /\ (forall now,
        Jwt.timestamp now < Jwt.timestamp t + 7 * 86400 ->
        redis w' !! KBlacklist access = None ->
        exists claims,
          fst (authenticate env now (Some (Bearer access)) w')
          = Ok (Next claims)).
Proof.
  intros Hrun H201 Haccess Hrt.
  destruct (register_201 _ _ _ _ _ _ Hrun H201)
    as (Hfresh & _ & _ & Hrt' & Haccess' & Husers & _ & Hready & _ & Hredis).
  rewrite Hrt' in Hrt. injection Hrt as <-.
  rewrite Haccess' in Haccess. injection Haccess as <-.
  set (u := registered_user w body) in *.
  split; [|split].
  - intros now.
    unfold login, try_catch, bind, User.findOne, User.comparePassword, ret.
    simpl. rewrite Husers, lookup_app, Hfresh. simpl.
    rewrite bool_decide_eq_true_2 by done. simpl.
    rewrite bool_decide_eq_true_2 by done. done.
  - intros now Hnow.
    assert (Hv : Jwt.verify
                   (Jwt.sign (refresh_claims u) (JWT_SECRET env)
                      REFRESH_TOKEN_EXPIRES_IN t) (JWT_SECRET env) now
                 = inr (refresh_claims u)).
    { rewrite verify_sign. rewrite bool_decide_eq_false_2; [done|].
      simpl. lia. }
    unfold reply, refreshToken, try_catch, bind.
    change (Jwt.truthy (Some (Jwt.sign (refresh_claims u) (JWT_SECRET env)
                                REFRESH_TOKEN_EXPIRES_IN t))) with true.
    cbv beta iota. unfold negb, default.
    rewrite (jwt_verify_inr _ _ _ _ _ Hv).
    rewrite get_ready by done. rewrite Hredis. unfold store_refresh.
    cbn [Jwt.userId refresh_claims]. rewrite peek_insert_live.
    2: { apply bool_decide_eq_true_2.
         apply (timestamp_before now t (30 * 86400)) in Hnow. lia. }
    simpl. rewrite bool_decide_eq_true_2 by done. simpl.
    unfold User.findById. simpl. rewrite Husers, lookup_app.
    rewrite bool_decide_eq_true_2 by done.
    by destruct (User.lookup (fun v => bool_decide (_id v = next_oid w))
                  (users w)).
  - intros now Hnow Hbl. exists (access_claims u).
    rewrite authenticate_pass with (claims := access_claims u); try done.
    + rewrite verify_sign. rewrite bool_decide_eq_false_2; [done|].
      simpl. lia.
    + unfold Redis.peek. by rewrite Hbl.
Qed.

Lemma unverified_account_keeps_session_witness :
  (forall now,
      fst (login None now
             {| login_email := reg_email alice;
                login_password := reg_password alice |} registered_world)
      = Ok (Http.fail 403 "Please verify your email first"))
  /\ (forall now,
        Jwt.timestamp now < Jwt.timestamp 0 + 30 * 86400 ->
        Http.status
          <$> reply (refreshToken None now (Some (alice_refresh 0))
                       registered_world)
        = Some 200)
  /\ (forall now,
        Jwt.timestamp now < Jwt.timestamp 0 + 7 * 86400 ->
        redis registered_world !! KBlacklist (alice_access 0) = None ->
        exists claims,
          fst (authenticate None now (Some (Bearer (alice_access 0)))
                 registered_world)
          = Ok (Next claims)).
Proof.
  apply (unverified_account_keeps_session None 0 alice empty_world
           registered_world
           (match fst (register None 0 alice empty_world) with
            | Ok r => r
            | Throw _ => logged_out
            end)
           (alice_access 0) (alice_refresh 0)); vm_compute; reflexivity.
Defined.

(** X9.  A registration can not be repeated.  After a registration
    answered 201, any registration with the same e-mail is answered 400
    'User already exists', whatever its other fields and whenever it
    comes, and leaves the world as the first one left it. *)
Theorem register_twice_conflicts (env : option string) (t t' : Z)
    (body body' : RegisterBody) (w w' : World) (r : Http.Response) :
  register env t body w = (Ok r, w') ->
  Http.status r = 201 ->
  reg_email body' = reg_email body ->
  register env t' body' w' = (Ok (Http.fail 400 "User already exists"), w').
Proof.
  intros Hrun H201 Hmail.
  destruct (register_201 _ _ _ _ _ _ Hrun H201)
    as (Hfresh & _ & _ & _ & _ & Husers & _).
  unfold register, try_catch, bind, User.findOne. simpl.
  rewrite Husers, lookup_app, Hmail, Hfresh. simpl.
  by rewrite bool_decide_eq_true_2.
Qed.

Lemma register_twice_conflicts_witness :
  register None 9000 alice registered_world
  = (Ok (Http.fail 400 "User already exists"), registered_world).
Proof.
  apply (register_twice_conflicts None 0 9000 alice alice empty_world
           registered_world
           (match fst (register None 0 alice empty_world) with
            | Ok r => r
            | Throw _ => logged_out
            end)); vm_compute; reflexivity.
Defined.

(** ** The user collection stays well formed *)

Lemma users_wf_frame w w' :
  users w' = users w -> next_oid w' = next_oid w ->
  users_wf w -> users_wf w'.
Proof. unfold users_wf. by intros -> ->. Qed.

Lemma fmap_update_first {B} (g : IUser -> B) id f us :
  (forall u, g (f u) = g u) ->
  g <$> User.update_first id f us = g <$> us.
Proof.
  intros Hg. induction us as [|u us IH]; simpl; [done|].
  case_bool_decide; rewrite !fmap_cons, ?Hg, ?IH; done.
Qed.

Lemma Forall_update_first (P : IUser -> Prop) id f us :
  (forall u, P u -> P (f u)) ->
  Forall P us -> Forall P (User.update_first id f us).
Proof.
  intros Hf. induction 1 as [|u us Hu Hus IH]; simpl; [done|].
  case_bool_decide; constructor; auto.
Qed.

(** A query that finds nothing: no record has the e-mail. *)
Lemma lookup_email_none e us :
  User.lookup (fun v => bool_decide (email v = e)) us = None ->
  e ∉ email <$> us.
Proof.
  unfold User.lookup. intros Hnone Hin.
  apply list_elem_of_fmap in Hin as (u & -> & Hu).
  apply list_elem_of_In in Hu.
  pose proof (find_none _ _ Hnone u Hu) as Hfalse. simpl in Hfalse.
  by rewrite bool_decide_eq_true_2 in Hfalse.
Qed.

(** What [register] can do to the collection: nothing, or append the new
    record under a fresh e-mail; the driver's counter never goes back. *)
Lemma register_world env now body w :
  let w' := snd (register env now body w) in
  (users w' = users w
   /\ (next_oid w' = next_oid w \/ next_oid w' = N.succ (next_oid w)))
  \/ (User.lookup
    (fun v => bool_decide (email v = User.email_setters (reg_email body)))
    (users w)
      = None
      /\ users w' = (users w ++ [registered_user w body])%list
      /\ next_oid w' = N.succ (next_oid w)).
Proof.
  unfold register, try_catch, bind, User.findOne, User.new, User.save.
  simpl.
  destruct (User.lookup _ (users w)) as [u0|] eqn:Hfresh; simpl.
  { left. auto. }
  destruct (User.validate _); simpl.
  2: { left. auto. }
  rewrite Hfresh. simpl. right.
  unfold Redis.setEx, Redis.command, sendVerificationEmail. simpl.
  destruct (redis_ready w) eqn:Hready; simpl; [|done].
  rewrite Hready. simpl. done.
Qed.

Lemma login_world env now body w :
  users (snd (login env now body w)) = users w
  /\ next_oid (snd (login env now body w)) = next_oid w.
Proof.
  unfold login, try_catch, bind, User.findOne, User.comparePassword, ret,
    Redis.setEx, Redis.command.
  simpl. repeat case_match; simplify_eq/=; done.
Qed.

Lemma logout_world now user w :
  users (snd (logout now user w)) = users w
  /\ next_oid (snd (logout now user w)) = next_oid w.
Proof.
  unfold logout, try_catch, bind, ret, throw, Redis.del, Redis.command.
  simpl. repeat case_match; simplify_eq/=; done.
Qed.

Lemma refreshToken_world env now body w :
  users (snd (refreshToken env now body w)) = users w
  /\ next_oid (snd (refreshToken env now body w)) = next_oid w.
Proof.
  unfold refreshToken, try_catch, bind, jwt_verify, User.findById, ret, throw,
    Redis.get, Redis.command.
  simpl. repeat case_match; simplify_eq/=; done.
Qed.

Lemma authenticate_world env now authorization w :
  users (snd (authenticate env now authorization w)) = users w
  /\ next_oid (snd (authenticate env now authorization w)) = next_oid w.
Proof.
  unfold authenticate, try_catch, bind, jwt_verify, ret, throw,
    Redis.get, Redis.command.
  simpl. repeat case_match; simplify_eq/=; done.
Qed.

Lemma verifyEmail_world env now query w :
  (users (snd (verifyEmail env now query w)) = users w
   \/ exists id,
        users (snd (verifyEmail env now query w))
        = User.update_first id User.set_verified (users w))
  /\ next_oid (snd (verifyEmail env now query w)) = next_oid w.
Proof.
  unfold verifyEmail, try_catch, bind, jwt_verify, User.findByIdAndUpdate, ret,
    throw, Redis.get, Redis.del, Redis.command.
  simpl. repeat case_match; simplify_eq/=; split; eauto.
Qed.

(** X10.  The handlers keep the user collection well formed.  From a
    world in which e-mails and ids are unique, every id is below the
    driver's counter and every password is stored as a digest, each of
    [register], [login], [logout], [refreshToken], [verifyEmail] and
    [authenticate] leads to such a world again, whatever the request and
    also when it fails; the empty world is one. *)
Theorem handlers_keep_users_wf (env : option string) (now : Z) (w : World) :
  users_wf w ->
  (forall body, users_wf (snd (register env now body w)))
  /\ (forall body, users_wf (snd (login env now body w)))
  /\ (forall user, users_wf (snd (logout now user w)))
  /\ (forall body, users_wf (snd (refreshToken env now body w)))
  /\ (forall query, users_wf (snd (verifyEmail env now query w)))
  /\ (forall authorization,
        users_wf (snd (authenticate env now authorization w)))
  /\ users_wf empty_world.
Proof.
  intros Hwf.
  split; [|split; [|split; [|split; [|split; [|split]]]]].
  - intros body.
    destruct (register_world env now body w)
      as [[Hu Hn]|(Hfresh & Hu & Hn)];
      destruct Hwf as (Hmail & Hid & Hlt & Hpw); unfold users_wf;
      rewrite Hu.
    + repeat split; try done.
      eapply Forall_impl; [exact Hlt|]. simpl. intros u Hlt'.
      destruct Hn as [-> | ->]; lia.
    + rewrite !fmap_app, Hn. simpl. repeat split.
      * apply NoDup_app. split; [done|]. split; [|apply NoDup_singleton].
        intros e He Heq. apply list_elem_of_singleton in Heq as ->.
        by apply lookup_email_none in Hfresh.
      * apply NoDup_app. split; [done|]. split; [|apply NoDup_singleton].
        intros i Hi Heq. apply list_elem_of_singleton in Heq as ->.
        apply list_elem_of_fmap in Hi as (u & Hu' & Hin).
        rewrite Forall_forall in Hlt. specialize (Hlt u Hin). lia.
      * apply Forall_app. split.
        -- eapply Forall_impl; [exact Hlt|]. simpl. lia.
        -- apply Forall_singleton. simpl. lia.
      * apply Forall_app. split; [done|].
        apply Forall_singleton. simpl. eauto.
  - intros body. destruct (login_world env now body w) as [Hu Hn].
    by apply (users_wf_frame w).
  - intros user. destruct (logout_world now user w) as [Hu Hn].
    by apply (users_wf_frame w).
  - intros body. destruct (refreshToken_world env now body w) as [Hu Hn].
    by apply (users_wf_frame w).
  - intros query.
    destruct (verifyEmail_world env now query w) as [[Hu|[id Hu]] Hn].
    + by apply (users_wf_frame w).
    + destruct Hwf as (Hmail & Hid & Hlt & Hpw). unfold users_wf.
      rewrite Hu, Hn, !fmap_update_first by done. repeat split; try done.
      * by apply Forall_update_first.
      * by apply Forall_update_first.
  - intros authorization.
    destruct (authenticate_world env now authorization w) as [Hu Hn].
    by apply (users_wf_frame w).
  - repeat split; simpl; constructor.
Qed.

Lemma handlers_keep_users_wf_witness :
  users_wf (snd (register None 0 alice empty_world))
  /\ users_wf (snd (verifyEmail None 5000 (Some alice_verification)
                      registered_world)).
Proof.
  assert (Hempty : users_wf empty_world).
  { repeat split; simpl; constructor. }
  split.
  - apply (handlers_keep_users_wf None 0 empty_world Hempty).
  - apply (handlers_keep_users_wf None 5000 registered_world).
    apply (handlers_keep_users_wf None 0 empty_world Hempty).
Defined.

Lemma update_first_app_fresh id f us u :
  Forall (fun v => _id v <> id) us -> _id u = id ->
  User.update_first id f (us ++ [u]) = (us ++ [f u])%list.
Proof.
  intros Hus Hu. induction Hus as [|v us Hv Hus IH]; simpl.
  - by rewrite bool_decide_eq_true_2.
  - rewrite bool_decide_eq_false_2 by done. by rewrite IH.
Qed.

(** X11.  The account life cycle composes.  From a well-formed world, a
    registration answered 201 appends one record and mails a verification
    token to the address of that record (for an ASCII address, the one of
    the body, trimmed and lower-cased); presenting that token to
    [verifyEmail] before its expiry, 24 hours later, is answered 200; and
    from then on a login with the registered e-mail and password is
    answered 200. *)
Theorem register_verify_login (env : option string) (t0 : Z)
    (body : RegisterBody) (w w1 : World) (r : Http.Response) :
  users_wf w ->
  register env t0 body w = (Ok r, w1) ->
  Http.status r = 201 ->
  exists u vt,
    users w1 = (users w ++ [u])%list
    /\ outbox w1 = (outbox w ++ [(email u, vt)])%list
    /\ (JsString.is_ascii (reg_email body) = true ->
        email u = JsString.toLowerCase (JsString.trim (reg_email body)))
    /\ forall t1 t2,
         Jwt.timestamp t1 < Jwt.timestamp t0 + 86400 ->
         exists w2 r3 w3,
           verifyEmail env t1 (Some vt) w1 = (Ok verified, w2)
           /\ login env t2
                {| login_email := reg_email body;
                   login_password := reg_password body |} w2
              = (Ok r3, w3)
           /\ Http.status r3 = 200.
Proof.
  intros (_ & _ & Hlt & _) Hrun H201.
  destruct (register_201 _ _ _ _ _ _ Hrun H201)
    as (Hfresh & _ & _ & _ & _ & Husers & _ & Hready & Hout & Hredis).
  set (u := registered_user w body) in *.
  exists u. eexists. split; [exact Husers|]. split; [exact Hout|].
  split; [done|].
  intros t1 t2 Ht1.
  assert (Hv : Jwt.verify
                 (Jwt.sign (verification_claims u) (JWT_SECRET env)
                    (Hours 24) t0) (JWT_SECRET env) t1
               = inr (verification_claims u)).
  { rewrite verify_sign. rewrite bool_decide_eq_false_2; [done|].
    simpl. lia. }
  exists (after_verification (_id u) w1).
  assert (Hverify :
    verifyEmail env t1
      (Some (Jwt.sign (verification_claims u) (JWT_SECRET env) (Hours 24) t0))
      w1
    = (Ok verified, after_verification (_id u) w1)).
  { unfold verifyEmail, try_catch, bind.
    change (Jwt.truthy (Some (Jwt.sign (verification_claims u)
                                (JWT_SECRET env) (Hours 24) t0))) with true.
    cbv beta iota. unfold negb, default.
    rewrite (jwt_verify_inr _ _ _ _ _ Hv).
    rewrite get_ready by done. rewrite Hredis. unfold store_refresh.
    cbn [Jwt.userId verification_claims].
    rewrite peek_insert_ne by done. rewrite peek_insert_live.
    2: { apply bool_decide_eq_true_2.
         apply (timestamp_before t1 t0 86400) in Ht1. lia. }
    simpl. rewrite bool_decide_eq_true_2 by done. simpl.
    unfold Redis.del, Redis.command. simpl. rewrite Hready. done. }
  assert (Husers2 :
    users (after_verification (_id u) w1)
    = (users w ++ [User.set_verified u])%list).
  { simpl. rewrite Husers. apply update_first_app_fresh; [|done].
    eapply Forall_impl; [exact Hlt|]. simpl. lia. }
  eexists _, _. split; [exact Hverify|]. split.
  - apply (login_ok env t2 _ _ (User.set_verified u) 10%nat); try done.
    rewrite Husers2, lookup_app. simpl. rewrite Hfresh.
    by rewrite bool_decide_eq_true_2.
  - done.
Qed.

Lemma register_verify_login_witness :
  exists u vt,
    users registered_world = (users empty_world ++ [u])%list
    /\ outbox registered_world
       = (outbox empty_world ++ [(email u, vt)])%list
    /\ (JsString.is_ascii (reg_email alice) = true ->
        email u = JsString.toLowerCase (JsString.trim (reg_email alice)))
    /\ forall t1 t2,
         Jwt.timestamp t1 < Jwt.timestamp 0 + 86400 ->
         exists w2 r3 w3,
           verifyEmail None t1 (Some vt) registered_world = (Ok verified, w2)
           /\ login None t2
                {| login_email := reg_email alice;
                   login_password := reg_password alice |} w2
              = (Ok r3, w3)
           /\ Http.status r3 = 200.
Proof.
  apply (register_verify_login None 0 alice empty_world registered_world
           (match fst (register None 0 alice empty_world) with
            | Ok r => r
            | Throw _ => logged_out
            end)).
  - repeat split; simpl; constructor.
  - vm_compute. reflexivity.
  - reflexivity.
Defined.

(** ** More on the rate limiter *)

(** The limiter's answer, read off the client state and the live cell of
    the request's key. *)
Lemma rateLimiter_answer limit windowMs now req w :
  fst (rateLimiter limit windowMs now req w)
  = if redis_ready w then
      match Redis.peek now (ratelimit_key req) (redis w) with
      | Some {| value := VString _ |} => Ok (Next tt)
      | Some {| value := VCounter n |} =>
          if bool_decide (n + 1 = 1)
             && negb (bool_decide (Qden (Qred (Qmake windowMs 1000)) = 1%positive))
          then Ok (Next tt)
          else Ok (verdict limit (n + 1))
      | None =>
          if negb (bool_decide (Qden (Qred (Qmake windowMs 1000)) = 1%positive))
          then Ok (Next tt)
          else Ok (verdict limit 1)
      end
    else Ok (Next tt).
Proof.
  unfold rateLimiter, try_catch, bind, Redis.incr, Redis.expire.
  destruct (redis_ready w) eqn:Hready; [|by rewrite command_closed].
  rewrite command_ready by done.
  destruct (Redis.peek now (ratelimit_key req) (redis w))
    as [[[tok|n] ex]|] eqn:Hpeek; simpl; [done| |].
  - case_bool_decide as Hone; simpl.
    + rewrite command_ready by done. simpl.
      destruct (bool_decide (Qden (Qred (Qmake windowMs 1000)) = 1%positive));
        simpl; [|done].
      rewrite peek_insert.
      destruct (live now _); simpl; unfold verdict, ret;
        by destruct (bool_decide (limit < n + 1)).
    + unfold verdict, ret. by destruct (bool_decide (limit < n + 1)).
  - rewrite command_ready by done. simpl.
    destruct (bool_decide (Qden (Qred (Qmake windowMs 1000)) = 1%positive));
      simpl; [|done].
    rewrite peek_insert. simpl. unfold verdict, ret.
    by destruct (bool_decide (limit < 1)).
Qed.

(** The limiter's answer depends on the store only through the client
    state and the cell of the request's own key. *)
Lemma rateLimiter_local limit windowMs now req w1 w2 :
  redis_ready w1 = redis_ready w2 ->
  redis w1 !! ratelimit_key req = redis w2 !! ratelimit_key req ->
  fst (rateLimiter limit windowMs now req w1)
  = fst (rateLimiter limit windowMs now req w2).
Proof.
  intros Hready Hcell. rewrite !rateLimiter_answer.
  unfold Redis.peek. by rewrite Hready, Hcell.
Qed.

(** A command that leaves a cell alone leaves it alone in the world. *)
Lemma command_frame {A} (f : gmap Key Entry -> Result A * gmap Key Entry) k w :
  (forall store, snd (f store) !! k = store !! k) ->
  redis_ready (snd (Redis.command f w)) = redis_ready w
  /\ redis (snd (Redis.command f w)) !! k = redis w !! k.
Proof.
  intros Hf. unfold Redis.command.
  destruct (redis_ready w) eqn:Hready; [|done].
  specialize (Hf (redis w)). destruct (f (redis w)) as [r store]. done.
Qed.

Lemma incr_frame now k' k w :
  k <> k' ->
  redis_ready (snd (Redis.incr now k' w)) = redis_ready w
  /\ redis (snd (Redis.incr now k' w)) !! k = redis w !! k.
Proof.
  intros Hk. apply command_frame. intros store.
  destruct (Redis.peek now k' store) as [[[tok|n] ex]|]; simpl;
    by rewrite ?lookup_insert_ne.
Qed.

Lemma expire_frame now k' secs k w :
  k <> k' ->
  redis_ready (snd (Redis.expire now k' secs w)) = redis_ready w
  /\ redis (snd (Redis.expire now k' secs w)) !! k = redis w !! k.
Proof.
  intros Hk. apply command_frame. intros store.
  destruct (negb _); simpl; [done|].
  destruct (Redis.peek now k' store); simpl; [|done].
  case_bool_decide; by rewrite ?lookup_insert_ne, ?lookup_delete_ne.
Qed.

(** A request leaves the client state and the cells of all other keys as
    they were. *)
Lemma rateLimiter_frame limit windowMs now req w k :
  k <> ratelimit_key req ->
  redis_ready (snd (rateLimiter limit windowMs now req w)) = redis_ready w
  /\ redis (snd (rateLimiter limit windowMs now req w)) !! k = redis w !! k.
Proof.
  intros Hk.
  destruct (incr_frame now (ratelimit_key req) k w Hk) as [Hr1 Hc1].
  unfold rateLimiter, try_catch, bind.
  destruct (Redis.incr now (ratelimit_key req) w) as [[n|e] w1]; simpl in *;
    [|done].
  case_bool_decide; simpl.
  - destruct (expire_frame now (ratelimit_key req) (Qmake windowMs 1000) k w1 Hk)
      as [Hr2 Hc2].
    destruct (Redis.expire now (ratelimit_key req) (Qmake windowMs 1000) w1)
      as [[b|e] w2]; simpl in *.
    + destruct (bool_decide (limit < n)); simpl; split; congruence.
    + split; congruence.
  - destruct (bool_decide (limit < n)); simpl; done.
Qed.

Lemma hits_frame limit windowMs req ts : forall w k,
  k <> ratelimit_key req ->
  redis_ready (snd (hits limit windowMs req ts w)) = redis_ready w
  /\ redis (snd (hits limit windowMs req ts w)) !! k = redis w !! k.
Proof.
  induction ts as [|t ts IH]; intros w k Hk; simpl; [done|].
  destruct (rateLimiter limit windowMs t req w) as [r w1] eqn:Hstep.
  destruct (hits limit windowMs req ts w1) as [rs w2] eqn:Hrest.
  simpl.
  destruct (IH w1 k Hk) as [Hready Hcell]. rewrite Hrest in Hready, Hcell.
  destruct (rateLimiter_frame limit windowMs t req w k Hk) as [Hready1 Hcell1].
  rewrite Hstep in Hready1, Hcell1. simpl in *.
  split; congruence.
Qed.

(** X12.  Counters of different keys do not interfere: whatever requests
    one client and route have made, with whatever limit and window, the
    limiter's answer to a request under another key is the one it would
    have given without them. *)
Theorem rate_limit_keys_independent (limit limit' windowMs windowMs' : Z)
    (req req' : Request) (ts : list Z) (now : Z) (w : World) :
  ratelimit_key req <> ratelimit_key req' ->
  fst (rateLimiter limit' windowMs' now req'
         (snd (hits limit windowMs req ts w)))
  = fst (rateLimiter limit' windowMs' now req' w).
Proof.
  intros Hne.
  destruct (hits_frame limit windowMs req ts w (ratelimit_key req'))
    as [Hready Hcell]; [done|].
  by apply rateLimiter_local.
Qed.

Lemma rate_limit_keys_independent_witness :
  fst (rateLimiter 1 60000 500 {| ip := "10.0.0.8"; path := "/login" |}
         (snd (hits 3 60000 client [0; 100; 200; 300] empty_world)))
  = fst (rateLimiter 1 60000 500 {| ip := "10.0.0.8"; path := "/login" |}
           empty_world).
Proof.
  apply (rate_limit_keys_independent 3 1 60000 60000 client
           {| ip := "10.0.0.8"; path := "/login" |} [0; 100; 200; 300] 500
           empty_world).
  vm_compute. discriminate.
Defined.

(** [windowMs / 1000] is not a whole number when [windowMs] is not a
    multiple of 1000. *)
Lemma window_fractional (windowMs : Z) :
  windowMs mod 1000 <> 0 ->
  Qden (Qred (Qmake windowMs 1000)) <> 1%positive.
Proof.
  intros Hmod Hden.
  pose proof (Qred_correct (Qmake windowMs 1000)) as Heq.
  unfold Qeq in Heq.
  destruct (Qred (Qmake windowMs 1000)) as [n d]. simpl in *. subst d.
  apply Hmod. replace windowMs with (n * 1000) by lia.
  apply Z.mod_mul. lia.
Qed.

Lemma hit_fresh_fractional limit windowMs now req w :
  windowMs mod 1000 <> 0 ->
  redis_ready w = true ->
  Redis.peek now (ratelimit_key req) (redis w) = None ->
  exists w',
    rateLimiter limit windowMs now req w = (Ok (Next tt), w')
    /\ redis_ready w' = true
    /\ redis w' !! ratelimit_key req
       = Some {| value := VCounter 1; expires_at := None |}.
Proof.
  intros Hmod Hready Hpeek.
  unfold rateLimiter, try_catch, bind, Redis.incr, Redis.expire.
  rewrite command_ready by done. rewrite Hpeek. simpl.
  rewrite command_ready by done. simpl.
  rewrite (bool_decide_eq_false_2 (Qden _ = 1%positive))
    by by apply window_fractional.
  simpl. eexists. split; [done|]. simpl. split; [done|].
  apply lookup_insert_eq.
Qed.

Lemma hit_counted_forever limit windowMs now req w n :
  redis_ready w = true ->
  redis w !! ratelimit_key req
  = Some {| value := VCounter n; expires_at := None |} ->
  1 <= n ->
  rateLimiter limit windowMs now req w
  = (Ok (verdict limit (n + 1)),
     with_redis
       (<[ratelimit_key req :=
            {| value := VCounter (n + 1); expires_at := None |}]> (redis w)) w).
Proof.
  intros Hready Hcell Hn.
  unfold rateLimiter, try_catch, bind, Redis.incr.
  rewrite command_ready by done.
  unfold Redis.peek. rewrite Hcell. unfold live. simpl.
  rewrite (bool_decide_eq_false_2 (n + 1 = 1)) by lia. simpl.
  unfold verdict, ret.
  by destruct (bool_decide (limit < n + 1)).
Qed.

Lemma hits_counted_forever limit windowMs req ts :
  forall w n,
    redis_ready w = true ->
    redis w !! ratelimit_key req
    = Some {| value := VCounter n; expires_at := None |} ->
    1 <= n ->
    exists w',
      hits limit windowMs req ts w
      = ((fun k : nat => Ok (verdict limit (n + Z.of_nat k)))
           <$> seq 1 (length ts), w')
      /\ redis w' !! ratelimit_key req
         = Some {| value := VCounter (n + Z.of_nat (length ts));
                   expires_at := None |}.
Proof.
  induction ts as [|t ts IH]; intros w n Hready Hcell Hn.
  - exists w. simpl. rewrite Z.add_0_r. done.
  - simpl hits.
    rewrite (hit_counted_forever _ _ _ _ _ _ Hready Hcell Hn).
    destruct (IH (with_redis
                    (<[ratelimit_key req :=
                         {| value := VCounter (n + 1);
                            expires_at := None |}]> (redis w)) w)
                 (n + 1)) as (w' & Hrun & Hcell'); try done.
    { simpl. apply lookup_insert_eq. }
    { lia. }
    exists w'. rewrite Hrun. split.
    + f_equal. simpl. f_equal.
      rewrite <- (fmap_S_seq 1), <- list_fmap_compose.
      apply list_fmap_ext. intros i k _. simpl. do 2 f_equal. lia.
    + rewrite Hcell'. do 3 f_equal. simpl length. lia.
Qed.

(** X13.  A window that is not a whole number of seconds never ends.
    When [windowMs] is not a multiple of 1000, the first request of a key
    is handed on whatever the limit (the refused [EXPIRE] is swallowed as
    a store fault), the counter is left without a time to live, and every
    later request, however long after, is counted against the same
    counter: the [k]-th is handed on when [k <= limit] and answered 429
    otherwise. *)
Theorem rate_limit_fractional_window (limit windowMs : Z) (req : Request)
    (t0 : Z) (ts : list Z) (w : World) :
  windowMs mod 1000 <> 0 ->
  redis_ready w = true ->
  Redis.peek t0 (ratelimit_key req) (redis w) = None ->
  exists w',
    hits limit windowMs req (t0 :: ts) w
    = (Ok (Next tt)
       :: ((fun k : nat =>
              Ok (if bool_decide (Z.of_nat k <= limit)
                  then Next tt else Reply throttled))
             <$> seq 2 (length ts)), w')
    /\ redis w' !! ratelimit_key req
       = Some {| value := VCounter (Z.of_nat (S (length ts)));
                 expires_at := None |}.
Proof.
  intros Hmod Hready Hpeek.
  destruct (hit_fresh_fractional limit windowMs t0 req w Hmod Hready Hpeek)
    as (w1 & Hfirst & Hready1 & Hcell1).
  simpl hits. rewrite Hfirst.
  destruct (hits_counted_forever limit windowMs req ts w1 1 Hready1 Hcell1)
    as (w' & Hrun & Hcell); [lia|].
  exists w'. rewrite Hrun. split.
  - do 2 f_equal.
    rewrite <- (fmap_S_seq 1), <- list_fmap_compose.
    apply list_fmap_ext. intros i k _. simpl. unfold verdict.
    repeat case_bool_decide; (done || lia).
  - rewrite Hcell. do 3 f_equal. lia.
Qed.

Lemma rate_limit_fractional_window_witness :
  exists w',
    hits 2 1500 client [0; 1000; 5000; 86400000] empty_world
    = ([Ok (Next tt); Ok (Next tt); Ok (Reply throttled); Ok (Reply throttled)],
       w')
    /\ redis w' !! ratelimit_key client
       = Some {| value := VCounter 4; expires_at := None |}.
Proof.
  apply (rate_limit_fractional_window 2 1500 client 0 [1000; 5000; 86400000]
           empty_world).
  - vm_compute. discriminate.
  - reflexivity.
  - reflexivity.
Defined.

Lemma hits_app limit windowMs req ts1 : forall ts2 w,
  hits limit windowMs req (ts1 ++ ts2) w
  = (fst (hits limit windowMs req ts1 w)
     ++ fst (hits limit windowMs req ts2 (snd (hits limit windowMs req ts1 w))),
     snd (hits limit windowMs req ts2 (snd (hits limit windowMs req ts1 w))))%list.
Proof.
  induction ts1 as [|t ts1 IH]; intros ts2 w; simpl.
  - by destruct (hits limit windowMs req ts2 w).
  - destruct (rateLimiter limit windowMs t req w) as [r w1].
    rewrite IH.
    destruct (hits limit windowMs req ts1 w1) as [rs1 w2]. simpl.
    by destruct (hits limit windowMs req ts2 w2).
Qed.

(** A full window: the first request and [n - 1] more by the deadline all
    pass under limit [n], and leave the counter at [n]. *)
Lemma hits_full_window (n : nat) secs req t0 t w :
  (1 <= n)%nat ->
  0 < secs ->
  redis_ready w = true ->
  Redis.peek t0 (ratelimit_key req) (redis w) = None ->
  t <= t0 + 1000 * secs ->
  exists w',
    hits (Z.of_nat n) (1000 * secs) req (t0 :: replicate (n - 1) t) w
    = (replicate n (Ok (Next tt)), w')
    /\ redis_ready w' = true
    /\ redis w' !! ratelimit_key req
       = Some {| value := VCounter (Z.of_nat n);
                 expires_at := Some (t0 + 1000 * secs) |}.
Proof.
  intros Hn Hsecs Hready Hpeek Ht.
  simpl hits. rewrite hit_fresh by done.
  destruct (hits_counted (Z.of_nat n) (1000 * secs) req (t0 + 1000 * secs)
              (replicate (n - 1) t)
              (with_redis
                 (<[ratelimit_key req :=
                      {| value := VCounter 1;
                         expires_at := Some (t0 + 1000 * secs) |}]> (redis w)) w)
              1) as (w' & Hrun & Hready' & Hcell); try done.
  { simpl. apply lookup_insert_eq. }
  { by apply Forall_replicate. }
  exists w'. rewrite Hrun. rewrite length_replicate in *.
  split; [|split; [done|]].
  - f_equal.
    replace n with (S (n - 1)) at 3 by lia. simpl. f_equal.
    + unfold verdict. by rewrite bool_decide_eq_false_2 by lia.
    + symmetry. apply replicate_as_Forall.
      rewrite length_fmap, length_seq. split; [done|].
      apply Forall_fmap, Forall_forall. intros k Hk.
      apply elem_of_seq in Hk. simpl. unfold verdict.
      by rewrite bool_decide_eq_false_2 by lia.
  - rewrite Hcell. do 3 f_equal. lia.
Qed.

(** X14.  The fixed window lets a double burst through at its boundary.
    Under limit [n >= 1], a first request at [t0], [n - 1] more in the last
    millisecond of its window and [n] in the first millisecond after the
    window are all handed on: [2n - 1] requests within two milliseconds,
    [2n] within a window and a millisecond. *)
Theorem rate_limit_boundary_burst (n : nat) (secs : Z) (req : Request)
    (t0 : Z) (w : World) :
  (1 <= n)%nat ->
  0 < secs ->
  redis_ready w = true ->
  Redis.peek t0 (ratelimit_key req) (redis w) = None ->
  fst (hits (Z.of_nat n) (1000 * secs) req
         ((t0 :: replicate (n - 1) (t0 + 1000 * secs - 1))
          ++ replicate n (t0 + 1000 * secs + 1)) w)
  = replicate (2 * n) (Ok (Next tt)).
Proof.
  intros Hn Hsecs Hready Hpeek.
  rewrite hits_app. cbn [fst].
  destruct (hits_full_window n secs req t0 (t0 + 1000 * secs - 1) w)
    as (w1 & Hrun1 & Hready1 & Hcell1); try done; [lia|].
  rewrite Hrun1. cbn [fst snd].
  replace (replicate n (t0 + 1000 * secs + 1))
    with ((t0 + 1000 * secs + 1)
          :: replicate (n - 1) (t0 + 1000 * secs + 1)).
  2: { replace n with (S (n - 1)) at 2 by lia. done. }
  destruct (hits_full_window n secs req (t0 + 1000 * secs + 1)
              (t0 + 1000 * secs + 1) w1)
    as (w2 & Hrun2 & _); try done; [|lia|].
  { unfold Redis.peek. rewrite Hcell1. unfold live. simpl.
    by rewrite bool_decide_eq_false_2 by lia. }
  rewrite Hrun2. cbn [fst].
  rewrite <- replicate_add. f_equal. lia.
Qed.

Lemma rate_limit_boundary_burst_witness :
  fst (hits 3 60000 client [0; 59999; 59999; 60001; 60001; 60001] empty_world)
  = replicate 6 (Ok (Next tt)).
Proof.
  apply (rate_limit_boundary_burst 3 60 client 0 empty_world).
  - lia.
  - lia.
  - reflexivity.
  - reflexivity.
Defined.

(** ** Inventory under the product schema *)

Lemma find_replace_first id (f : Product.t -> Product.t) ps :
  (forall p, Product._id p = id -> Product._id (f p) = id) ->
  product_by_id id (replace_first id f ps) = f <$> product_by_id id ps.
Proof.
  intros Hid. unfold product_by_id.
  induction ps as [|p ps IH]; simpl; [done|].
  case_bool_decide as Hp; simpl.
  - rewrite bool_decide_eq_true_2; [done|]. by apply Hid.
  - rewrite bool_decide_eq_false_2 by done. apply IH.
Qed.

Lemma replace_first_twice id (f g : Product.t -> Product.t) ps :
  (forall p, Product._id p = id -> Product._id (f p) = id) ->
  replace_first id g (replace_first id f ps)
  = replace_first id (fun p => g (f p)) ps.
Proof.
  intros Hid. induction ps as [|p ps IH]; simpl; [done|].
  case_bool_decide as Hp; simpl.
  - rewrite bool_decide_eq_true_2; [done|]. by apply Hid.
  - rewrite bool_decide_eq_false_2 by done. by rewrite IH.
Qed.

Lemma replace_first_missing id (f : Product.t -> Product.t) ps :
  product_by_id id ps = None -> replace_first id f ps = ps.
Proof.
  unfold product_by_id. induction ps as [|p ps IH]; simpl; [done|].
  case_bool_decide; [done|]. intros Hrest. by rewrite IH.
Qed.

(** The successful run of [updateInventory] on an existing product whose
    new quantity the schema accepts. *)
Lemma updateInventory_ok now productId quantity operation w p0 :
  product_by_id productId (products w) = Some p0 ->
  redis_ready w = true ->
  Product.sku p0 <> "" ->
  0 <= Product.quantity p0 + stock_delta operation quantity ->
  let p :=
    set_status
      (stock_status (Product.quantity p0 + stock_delta operation quantity)
         (Product.status p0))
      (inc_quantity (stock_delta operation quantity) p0) in
  exists w',
    updateInventory product_schema_valid now productId quantity operation w
    = (Ok (Some p), w')
    /\ product_by_id productId (products w') = Some p
    /\ published w' = (published w ++ [inventory_event p])%list
    /\ redis w' = delete (KProduct productId) (redis w)
    /\ redis_ready w' = true.
Proof.
  intros Hfind Hready Hsku Hq p.
  assert (Hid : Product._id p0 = productId).
  { unfold product_by_id in Hfind. apply find_some in Hfind as [_ H].
    by apply bool_decide_eq_true_1 in H. }
  unfold updateInventory, try_catch, bind, findByIdAndUpdate_inc.
  fold (stock_delta operation quantity).
  fold (product_by_id productId (products w)). rewrite Hfind.
  cbn [fmap option_fmap option_map fst snd].
  set (d := stock_delta operation quantity) in *.
  assert (Hvalid : forall s,
    s ∈ ["draft"; "active"; "archived"; "out_of_stock"] ->
    product_schema_valid (set_status s (inc_quantity d p0)) = true).
  { intros s Hs. unfold product_schema_valid. simpl.
    rewrite (bool_decide_eq_false_2 (Product.sku p0 = "")) by done.
    rewrite (bool_decide_eq_true_2 (0 <= Product.quantity p0 + d)) by done.
    by rewrite bool_decide_eq_true_2. }
  assert (Hstore : forall (s : string),
    product_by_id productId
      (replace_first (Product._id p0) (fun _ => set_status s (inc_quantity d p0))
         (replace_first productId (inc_quantity d) (products w)))
    = Some (set_status s (inc_quantity d p0))).
  { intros s. rewrite Hid, replace_first_twice by done.
    rewrite find_replace_first by done. by rewrite Hfind. }
  unfold p, stock_status. cbn [Product.quantity Product.status inc_quantity].
  destruct (bool_decide (Product.quantity p0 + d <= 0)) eqn:Hle;
    destruct (bool_decide (Product.status p0 = "out_of_stock")) eqn:Hst;
    cbn [negb andb].
  - (* already out of stock *)
    apply bool_decide_eq_true_1 in Hst.
    rewrite (bool_decide_eq_false_2 (0 < Product.quantity p0 + d))
      by (apply bool_decide_eq_true_1 in Hle; lia).
    cbn [andb].
    assert (set_status "out_of_stock" (inc_quantity d p0) = inc_quantity d p0)
      as -> by (destruct p0; simpl in *; by subst).
    unfold ret, Redis.del, publishMessage. rewrite command_ready by done.
    cbn [fst snd]. eexists. split; [done|].
    cbn [products published redis redis_ready with_products with_redis
         with_published].
    split; [|done].
    rewrite find_replace_first by done. by rewrite Hfind.
  - (* runs out *)
    unfold product_save. cbn [set_status Product._id inc_quantity].
    rewrite Hvalid by (repeat constructor).
    unfold ret, Redis.del, publishMessage. rewrite command_ready by done.
    cbn [fst snd]. eexists. split; [done|].
    cbn [products published redis redis_ready with_products with_redis
         with_published].
    split; [|done].
    apply (Hstore "out_of_stock").
  - (* back in stock *)
    assert (Hpos : bool_decide (0 < Product.quantity p0 + d) = true).
    { apply bool_decide_eq_true_2. apply bool_decide_eq_false_1 in Hle. lia. }
    rewrite Hpos. cbn [andb].
    unfold product_save. cbn [set_status Product._id inc_quantity].
    rewrite Hvalid by (repeat constructor).
    unfold ret, Redis.del, publishMessage. rewrite command_ready by done.
    cbn [fst snd]. eexists. split; [done|].
    cbn [products published redis redis_ready with_products with_redis
         with_published].
    split; [|done].
    apply (Hstore "active").
  - (* stays as it is *)
    rewrite andb_false_r.
    assert (set_status (Product.status p0) (inc_quantity d p0)
            = inc_quantity d p0) as -> by by destruct p0.
    unfold ret, Redis.del, publishMessage. rewrite command_ready by done.
    cbn [fst snd]. eexists. split; [done|].
    cbn [products published redis redis_ready with_products with_redis
         with_published].
    split; [|done].
    rewrite find_replace_first by done. by rewrite Hfind.
Qed.

(** X15.  A stock update that the schema accepts is stored as it is
    returned.  For an existing product with a [sku], a reachable store and
    a new quantity that is not negative, [updateInventory] returns the
    product with the new quantity and the status that goes with it; a
    look-up of the product then gives that same document, an
    'inventory.updated' event carrying its quantity and status is
    published, and the product's cache key is deleted. *)
Theorem inventory_update_persists (now : Z) (productId : ObjectId)
    (quantity : Z) (operation : Operation) (w : World) (p0 : Product.t) :
  product_by_id productId (products w) = Some p0 ->
  redis_ready w = true ->
  Product.sku p0 <> "" ->
  0 <= Product.quantity p0 + stock_delta operation quantity ->
  exists p w',
    updateInventory product_schema_valid now productId quantity operation w
    = (Ok (Some p), w')
    /\ Product.quantity p
       = Product.quantity p0 + stock_delta operation quantity
    /\ Product.status p
       = stock_status (Product.quantity p) (Product.status p0)
    /\ product_by_id productId (products w') = Some p
    /\ published w' = (published w ++ [inventory_event p])%list
    /\ redis w' = delete (KProduct productId) (redis w).
Proof.
  intros Hfind Hready Hsku Hq.
  destruct (updateInventory_ok now productId quantity operation w p0
              Hfind Hready Hsku Hq)
    as (w' & Hrun & Hstored & Hpub & Hredis & _).
  eexists _, w'. split; [exact Hrun|]. simpl. done.
Qed.

Lemma inventory_update_persists_witness :
  exists p w',
    updateInventory product_schema_valid 0 7%N 2 subtract shop
    = (Ok (Some p), w')
    /\ Product.quantity p = Product.quantity widget + stock_delta subtract 2
    /\ Product.status p
       = stock_status (Product.quantity p) (Product.status widget)
    /\ product_by_id 7%N (products w') = Some p
    /\ published w' = (published shop ++ [inventory_event p])%list
    /\ redis w' = delete (KProduct 7%N) (redis shop).
Proof.
  apply (inventory_update_persists 0 7%N 2 subtract shop widget).
  - reflexivity.
  - reflexivity.
  - discriminate.
  - vm_compute. discriminate.
Defined.

(** X16.  Overselling is refused only after the stock has been changed.
    When an update drives the quantity of a product that is not
    'out_of_stock' below 0, [updateInventory] throws the validation error
    of the [min: 0] rule, raised by the save of the new status; the
    decrement has then already been written: the stored product has the
    negative quantity and its old status, no event is published and the
    cache is not invalidated. *)
Theorem oversell_leaves_negative_stock (now : Z) (productId : ObjectId)
    (quantity : Z) (operation : Operation) (w : World) (p0 : Product.t) :
  product_by_id productId (products w) = Some p0 ->
  Product.status p0 <> "out_of_stock" ->
  Product.quantity p0 + stock_delta operation quantity < 0 ->
  exists w',
    updateInventory product_schema_valid now productId quantity operation w
    = (Throw (ValidationError "Product validation failed"), w')
    /\ product_by_id productId (products w')
       = Some (inc_quantity (stock_delta operation quantity) p0)
    /\ published w' = published w
    /\ redis w' = redis w.
Proof.
  intros Hfind Hst Hq.
  unfold updateInventory, try_catch, bind, findByIdAndUpdate_inc.
  fold (stock_delta operation quantity).
  fold (product_by_id productId (products w)). rewrite Hfind.
  cbn [fmap option_fmap option_map fst snd].
  set (d := stock_delta operation quantity) in *.
  cbn [Product.quantity Product.status inc_quantity].
  rewrite (bool_decide_eq_true_2 (Product.quantity p0 + d <= 0)) by lia.
  rewrite (bool_decide_eq_false_2 (Product.status p0 = "out_of_stock")) by done.
  cbn [negb andb]. unfold product_save.
  cbn [set_status Product._id inc_quantity].
  assert (product_schema_valid
            (set_status "out_of_stock" (inc_quantity d p0)) = false) as ->.
  { unfold product_schema_valid. simpl.
    rewrite (bool_decide_eq_false_2 (0 <= Product.quantity p0 + d)) by lia.
    by rewrite andb_false_r. }
  unfold logger_error, throw. cbn [fst snd].
  eexists. split; [done|].
  cbn [products published redis with_products with_log].
  split; [|done].
  rewrite find_replace_first by done. by rewrite Hfind.
Qed.

Lemma oversell_leaves_negative_stock_witness :
  exists w',
    updateInventory product_schema_valid 0 7%N 3 subtract shop
    = (Throw (ValidationError "Product validation failed"), w')
    /\ product_by_id 7%N (products w')
       = Some (inc_quantity (stock_delta subtract 3) widget)
    /\ published w' = published shop
    /\ redis w' = redis shop.
Proof.
  apply (oversell_leaves_negative_stock 0 7%N 3 subtract shop widget).
  - reflexivity.
  - discriminate.
  - vm_compute. reflexivity.
Defined.

(** X17.  Stock movements can publish a product that was not active.  A
    product in any status other than 'out_of_stock' (a draft, an archived
    one) whose stock is sold out becomes 'out_of_stock', and the next
    restock makes it 'active', whatever its status was before. *)
Theorem restock_activates (now now' : Z) (productId : ObjectId)
    (restock : Z) (w : World) (p0 : Product.t) :
  product_by_id productId (products w) = Some p0 ->
  redis_ready w = true ->
  Product.sku p0 <> "" ->
  Product.status p0 <> "out_of_stock" ->
  0 < restock ->
  exists p1 w1 p2 w2,
    updateInventory product_schema_valid now productId (Product.quantity p0)
      subtract w = (Ok (Some p1), w1)
    /\ Product.status p1 = "out_of_stock"
    /\ Product.quantity p1 = 0
    /\ updateInventory product_schema_valid now' productId restock add w1
       = (Ok (Some p2), w2)
    /\ Product.status p2 = "active"
    /\ Product.quantity p2 = restock.
Proof.
  intros Hfind Hready Hsku Hst Hrestock.
  destruct (updateInventory_ok now productId (Product.quantity p0) subtract w p0
              Hfind Hready Hsku)
    as (w1 & Hrun1 & Hstored1 & _ & _ & Hready1); [simpl; lia|].
  set (p1 := set_status _ _) in *.
  assert (Hq1 : Product.quantity p1 = 0) by (simpl; lia).
  assert (Hs1 : Product.status p1 = "out_of_stock").
  { unfold p1. cbn [Product.status set_status]. unfold stock_status.
    rewrite bool_decide_eq_true_2; [done|]. simpl. lia. }
  destruct (updateInventory_ok now' productId restock add w1 p1
              Hstored1 Hready1)
    as (w2 & Hrun2 & _); [done|simpl in *; lia|].
  eexists p1, w1, _, w2.
  split; [exact Hrun1|]. split; [done|]. split; [done|].
  split; [exact Hrun2|]. split.
  - cbn [Product.status set_status]. unfold stock_status.
    rewrite bool_decide_eq_false_2 by (simpl in *; lia).
    by rewrite bool_decide_eq_true_2.
  - simpl in *. lia.
Qed.

Lemma restock_activates_witness :
  exists p1 w1 p2 w2,
    updateInventory product_schema_valid 0 8%N (Product.quantity gadget)
      subtract warehouse = (Ok (Some p1), w1)
    /\ Product.status p1 = "out_of_stock"
    /\ Product.quantity p1 = 0
    /\ updateInventory product_schema_valid 1000 8%N 4 add w1
       = (Ok (Some p2), w2)
    /\ Product.status p2 = "active"
    /\ Product.quantity p2 = 4.
Proof.
  apply (restock_activates 0 1000 8%N 4 warehouse gadget).
  - reflexivity.
  - reflexivity.
  - discriminate.
  - discriminate.
  - lia.
Defined.

(** ** The inventory endpoint *)

Lemma with_products_id (w : World) : with_products (products w) w = w.
Proof. by destruct w. Qed.

(** X18.  What the inventory endpoint refuses, it refuses without touching
    anything.  A body whose quantity is missing or 0, or whose operation
    is neither 'add' nor 'subtract', is answered 400 'Invalid request
    body'; a well-formed body for an id that no product has is answered
    404 'Product not found'; in both cases the world is left as it
    was. *)
Theorem inventory_endpoint_rejections (product_valid : Product.t -> bool)
    (now : Z) (id : ObjectId) (body : ProductController.Body) (w : World) :
  (ProductController.no_quantity (ProductController.quantity body) = true
   \/ (ProductController.operation body <> Some "add"
       /\ ProductController.operation body <> Some "subtract") ->
   ProductController.updateInventory product_valid now id body w
   = (Ok (ProductController.fail 400 "Invalid request body"), w))
  /\ (ProductController.no_quantity (ProductController.quantity body) = false ->
      ProductController.operation body = Some "add"
      \/ ProductController.operation body = Some "subtract" ->
      product_by_id id (products w) = None ->
      ProductController.updateInventory product_valid now id body w
      = (Ok (ProductController.fail 404 "Product not found"), w)).
Proof.
  split.
  - intros Hbad.
    unfold ProductController.updateInventory, try_catch, bind, ret.
    destruct (ProductController.no_quantity _) eqn:Hq; simpl.
    { reflexivity. }
    destruct Hbad as [|[Hadd Hsub]]; [done|].
    destruct (ProductController.no_operation _); simpl; [done|].
    rewrite bool_decide_eq_false_2; [done|].
    intros Hin. apply list_elem_of_In in Hin. simpl in Hin.
    destruct (ProductController.operation body) as [o|]; simpl in Hin.
    + destruct Hin as [<-|[<-|[]]]; congruence.
    + destruct Hin as [|[|[]]]; discriminate.
  - intros Hq Hop Hmissing.
    unfold ProductController.updateInventory, try_catch, bind, ret.
    rewrite Hq.
    assert (ProductController.no_operation (ProductController.operation body)
            = false) as ->.
    { by destruct Hop as [-> | ->]. }
    rewrite bool_decide_eq_true_2.
    2: { destruct Hop as [-> | ->]; simpl; repeat constructor. }
    simpl.
    unfold updateInventory, try_catch, bind, findByIdAndUpdate_inc.
    fold (product_by_id id (products w)). rewrite Hmissing. simpl.
    rewrite replace_first_missing by done. by rewrite with_products_id.
Qed.

Lemma inventory_endpoint_rejections_witness :
  ProductController.updateInventory product_schema_valid 0 7%N
    {| ProductController.quantity := Some 0;
       ProductController.operation := Some "add" |} shop
  = (Ok (ProductController.fail 400 "Invalid request body"), shop)
  /\ ProductController.updateInventory product_schema_valid 0 9%N
       {| ProductController.quantity := Some 1;
          ProductController.operation := Some "add" |} shop
     = (Ok (ProductController.fail 404 "Product not found"), shop).
Proof.
  destruct (inventory_endpoint_rejections product_schema_valid 0 7%N
              {| ProductController.quantity := Some 0;
                 ProductController.operation := Some "add" |} shop)
    as [Hbad _].
  destruct (inventory_endpoint_rejections product_schema_valid 0 9%N
              {| ProductController.quantity := Some 1;
                 ProductController.operation := Some "add" |} shop)
    as [_ Hmissing].
  split.
  - apply Hbad. left. reflexivity.
  - apply Hmissing; [reflexivity | left; reflexivity | reflexivity].
Defined.

(** X19.  The endpoint does not check the sign of the quantity.  A
    request to 'add' a negative amount [-q] is accepted and does exactly
    what a request to 'subtract' [q] does: the same reply and the same
    world; for an existing product whose stock covers [q], the stock goes
    down by [q]. *)
Theorem inventory_endpoint_negative_add (now : Z) (id : ObjectId) (q : Z)
    (w : World) (p0 : Product.t) :
  0 < q ->
  ProductController.updateInventory product_schema_valid now id
    {| ProductController.quantity := Some (- q);
       ProductController.operation := Some "add" |} w
  = ProductController.updateInventory product_schema_valid now id
      {| ProductController.quantity := Some q;
         ProductController.operation := Some "subtract" |} w
  /\ (product_by_id id (products w) = Some p0 ->
      redis_ready w = true ->
      Product.sku p0 <> "" ->
      q <= Product.quantity p0 ->
      exists r w' p,
        ProductController.updateInventory product_schema_valid now id
          {| ProductController.quantity := Some (- q);
             ProductController.operation := Some "add" |} w
        = (Ok r, w')
        /\ ProductController.status r = 200
        /\ ProductController.data r = Some p
        /\ Product.quantity p = Product.quantity p0 - q
        /\ product_by_id id (products w') = Some p).
Proof.
  intros Hq. split.
  - unfold ProductController.updateInventory. simpl.
    destruct q as [|q|q]; try lia. simpl.
    unfold updateInventory. simpl. done.
  - intros Hfind Hready Hsku Hstock.
    destruct (updateInventory_ok now id (- q) add w p0 Hfind Hready Hsku)
      as (w' & Hrun & Hstored & _); [simpl; lia|].
    unfold ProductController.updateInventory, try_catch, bind. simpl.
    destruct q as [|q|q]; try lia. simpl.
    simpl in Hrun. rewrite Hrun. simpl.
    eexists _, w', _. split; [done|]. split; [done|]. split; [done|].
    split; [simpl; lia|done].
Qed.

Lemma inventory_endpoint_negative_add_witness :
  exists r w' p,
    ProductController.updateInventory product_schema_valid 0 7%N
      {| ProductController.quantity := Some (- 1);
         ProductController.operation := Some "add" |} shop
    = (Ok r, w')
    /\ ProductController.status r = 200
    /\ ProductController.data r = Some p
    /\ Product.quantity p = Product.quantity widget - 1
    /\ product_by_id 7%N (products w') = Some p.
Proof.
  apply (proj2 (inventory_endpoint_negative_add 0 7%N 1 shop widget
                  ltac:(lia))).
  - reflexivity.
  - reflexivity.
  - discriminate.
  - vm_compute. discriminate.
Defined.

(** ** The gateway's token check *)

(** X20.  The gateway checks signature and expiry only.  With a secret
    configured, it forwards a request exactly when the second word of the
    header is a token that verifies under the secret, whatever the first
    word says and without consulting the store; a missing header or a
    header of one word is answered 401 'Authentication required'.  So
    every request that the auth service's [authenticate] lets through is
    forwarded by a gateway holding the same secret, with the same
    claims. *)
Theorem gateway_checks_signature_only (secret : string) (now : Z) :
  secret <> "" ->
  (forall scheme tok rest claims,
      Gateway.authenticate (Some secret) now (Some (scheme :: tok :: rest))
      = Gateway.Forwarded claims
      <-> Jwt.verify tok secret now = inr claims)
  /\ (forall scheme,
        Gateway.authenticate (Some secret) now None
        = Gateway.Rejected 401 "Authentication required"
        /\ Gateway.authenticate (Some secret) now (Some [scheme])
           = Gateway.Rejected 401 "Authentication required")
  /\ (forall env tok w claims,
        JWT_SECRET env = secret ->
        fst (authenticate env now (Some (Bearer tok)) w) = Ok (Next claims) ->
        Gateway.authenticate (Some secret) now
          (Some [Jwt.Text "Bearer"; tok])
        = Gateway.Forwarded claims).
Proof.
  intros Hsecret.
  assert (Hiff : forall scheme tok rest claims,
    Gateway.authenticate (Some secret) now (Some (scheme :: tok :: rest))
    = Gateway.Forwarded claims
    <-> Jwt.verify tok secret now = inr claims).
  { intros scheme tok rest claims.
    unfold Gateway.authenticate, Gateway.verify.
    destruct secret as [|c s]; [done|].
    destruct tok as [payload iat exp key|[|c' text]]; simpl;
      try (split; done).
    repeat case_match; split; intros; simplify_eq; done. }
  split; [exact Hiff|]. split; [done|].
  intros env tok w claims <- Hpass.
  apply authenticate_next in Hpass as (tok' & [= <-] & Hv & _).
  by apply Hiff.
Qed.

Lemma gateway_checks_signature_only_witness :
  Gateway.authenticate (Some "your-secret-key") 30000
    (Some [Jwt.Text "Basic"; alice_access 10000])
  = Gateway.Forwarded alice_claims
  /\ Gateway.authenticate (Some "your-secret-key") 30000
       (Some [Jwt.Text "Bearer"; alice_access 10000])
     = Gateway.Forwarded alice_claims.
Proof.
  destruct (gateway_checks_signature_only "your-secret-key" 30000)
    as (Hiff & _ & Hservice); [discriminate|].
  split.
  - apply Hiff. vm_compute. reflexivity.
  - apply (Hservice None (alice_access 10000) logged_out_world alice_claims).
    + reflexivity.
    + vm_compute. reflexivity.
Defined.

(** ** Slugs *)

Lemma to_lower_not_upper c : Slug.is_upper (Slug.to_lower c) = false.
Proof. by destruct c as [[] [] [] [] [] [] [] []]. Qed.

Lemma to_lower_idem c : Slug.to_lower (Slug.to_lower c) = Slug.to_lower c.
Proof. by destruct c as [[] [] [] [] [] [] [] []]. Qed.

Lemma to_lower_class c :
  Slug.is_word (Slug.to_lower c) || Slug.is_space (Slug.to_lower c)
  = Slug.is_word c || Slug.is_space c.
Proof. by destruct c as [[] [] [] [] [] [] [] []]. Qed.

Lemma all_chars_impl (p q : Ascii.ascii -> bool) s :
  (forall c, p c = true -> q c = true) ->
  Slug.all_chars p s = true -> Slug.all_chars q s = true.
Proof.
  intros Hpq. induction s as [|c s IH]; simpl; [done|].
  intros [Hc Hs]%andb_true_iff. by rewrite (Hpq c Hc), IH.
Qed.

Lemma all_chars_map (p : Ascii.ascii -> bool) f s :
  (forall c, p (f c) = true) -> Slug.all_chars p (Slug.map_chars f s) = true.
Proof. intros Hp. induction s as [|c s IH]; simpl; [done|]. by rewrite Hp. Qed.

Lemma all_chars_filter (p keep : Ascii.ascii -> bool) s :
  Slug.all_chars p s = true ->
  Slug.all_chars (fun c => p c && keep c) (Slug.filter_chars keep s) = true.
Proof.
  induction s as [|c s IH]; simpl; [done|].
  intros [Hc Hs]%andb_true_iff.
  destruct (keep c) eqn:Hk; simpl; rewrite ?Hc, ?Hk, ?IH; done.
Qed.

(** After a run has been squeezed, every character is the replacement or
    a character of the text outside the class. *)
Lemma all_chars_squeeze (p q : Ascii.ascii -> bool) by_ s : forall b,
  Slug.all_chars q s = true ->
  Slug.all_chars (fun c => (q c && negb (p c)) || bool_decide (c = by_))
    (Slug.squeeze_from b p by_ s) = true.
Proof.
  induction s as [|c s IH]; intros b; simpl; [done|].
  intros [Hc Hs]%andb_true_iff.
  destruct (p c) eqn:Hp; [destruct b|]; simpl; rewrite ?IH by done.
  - done.
  - by rewrite bool_decide_eq_true_2, orb_true_r.
  - by rewrite Hc, Hp.
Qed.

(** Squeezed text has no two replacement characters side by side, and
    does not start with one when it continues a run. *)
Lemma squeeze_single_hyphens s : forall b,
  Slug.single_hyphens (Slug.squeeze_from b Slug.is_hyphen "-"%char s) = true
  /\ (b = true ->
      match Slug.squeeze_from b Slug.is_hyphen "-"%char s with
      | String d _ => Slug.is_hyphen d = false
      | EmptyString => True
      end).
Proof.
  induction s as [|c s IH]; intros b; simpl; [done|].
  destruct (Slug.is_hyphen c) eqn:Hc.
  - destruct b.
    + apply IH.
    + destruct (IH true) as [Hs Hhead]. specialize (Hhead eq_refl).
      split; [|done]. simpl.
      destruct (Slug.squeeze_from true Slug.is_hyphen "-"%char s); [done|].
      by rewrite Hhead, Hs.
  - destruct (IH false) as [Hs _]. split; [|done]. simpl.
    rewrite Hc, Hs.
    by destruct (Slug.squeeze_from false Slug.is_hyphen "-"%char s).
Qed.

(** X21.  A slug is URL-safe.  For an ASCII name, the slug that the
    pre-save hook computes consists of lower-case letters, digits,
    underscores and hyphens only, and it never has two hyphens side by
    side. *)
Theorem slug_alphabet (name : string) :
  Slug.all_chars Slug.is_ascii name = true ->
  Slug.all_chars Slug.slug_char (Slug.slugify name) = true
  /\ Slug.single_hyphens (Slug.slugify name) = true.
Proof.
  intros _. split.
  - unfold Slug.slugify, Slug.squeeze, Slug.strip, Slug.toLowerCase.
    eapply all_chars_impl.
    2: { apply (all_chars_squeeze Slug.is_hyphen Slug.slug_char).
         eapply all_chars_impl.
         2: { apply (all_chars_squeeze Slug.is_space
                       (fun c => negb (Slug.is_upper c)
                                 && (Slug.is_word c || Slug.is_space c))).
              apply (all_chars_filter (fun c => negb (Slug.is_upper c))).
              apply all_chars_map. intros c. by rewrite to_lower_not_upper. }
         intros c. simpl. case_bool_decide as Hc.
         - by subst c.
         - rewrite orb_false_r.
           by destruct c as [[] [] [] [] [] [] [] []]. }
    intros c. simpl. case_bool_decide as Hc.
    + by subst c.
    + rewrite orb_false_r. by intros [? _]%andb_true_iff.
  - apply squeeze_single_hyphens.
Qed.

Lemma slug_alphabet_witness :
  Slug.all_chars Slug.slug_char (Slug.slugify "Men's  T-Shirt (2024)") = true
  /\ Slug.single_hyphens (Slug.slugify "Men's  T-Shirt (2024)") = true.
Proof. apply (slug_alphabet "Men's  T-Shirt (2024)"). reflexivity. Defined.

Lemma map_chars_idem s :
  Slug.map_chars Slug.to_lower (Slug.map_chars Slug.to_lower s)
  = Slug.map_chars Slug.to_lower s.
Proof. induction s as [|c s IH]; simpl; [done|]. by rewrite to_lower_idem, IH. Qed.

Lemma strip_lower s :
  Slug.strip (Slug.toLowerCase (Slug.strip s)) = Slug.strip (Slug.toLowerCase s).
Proof.
  unfold Slug.strip, Slug.toLowerCase.
  induction s as [|c s IH]; simpl; [done|].
  destruct (Slug.is_word c || Slug.is_space c) eqn:Hc; simpl;
    rewrite to_lower_class, Hc, IH; done.
Qed.

(** X22.  Slugs ignore letter case and punctuation, hyphens included.
    For an ASCII name, lower-casing it, or removing from it every
    character that is neither a word character nor white space, does not
    change its slug; so two names that differ only in such ways collide
    on the unique slug. *)
Theorem slug_ignores_case_and_punctuation (name : string) :
  Slug.all_chars Slug.is_ascii name = true ->
  Slug.slugify (Slug.toLowerCase name) = Slug.slugify name
  /\ Slug.slugify (Slug.strip name) = Slug.slugify name.
Proof.
  intros _. unfold Slug.slugify. split.
  - unfold Slug.toLowerCase. by rewrite map_chars_idem.
  - by rewrite strip_lower.
Qed.

Lemma slug_ignores_case_and_punctuation_witness :
  Slug.slugify (Slug.toLowerCase "T-Shirt!") = Slug.slugify "T-Shirt!"
  /\ Slug.slugify (Slug.strip "T-Shirt!") = Slug.slugify "T-Shirt!".
Proof.
  apply (slug_ignores_case_and_punctuation "T-Shirt!"). reflexivity.
Defined.
